(** * lawful-typeclasses: the contract-validation engine of [classes.ts]

    [classes.ts] is present in two revisions.  The older one reports a
    failed validation as a [Left] holding one string; the newer one as a
    [MaybeError] holding a list of messages, and it also numbers the
    classes with a module-level counter.  Both are embedded here, in the
    modules [V1] and [V2], with the names of the source.

    Validators draw random samples, so a call of [check] is modelled as
    a function of the candidate and of a state of the outside world; a
    call of [validate] threads that state through the calls it makes, in
    the order in which the source makes them, and records the calls in a
    call tree. *)

From Stdlib Require Import ZArith List String Ascii Bool Sorted Lia.
Import ListNotations.

#[local] Set Warnings "-register-all,-notation-for-abbreviation".
#[local] Open Scope Z_scope.

(** ** Strings *)

(** A template literal [`${a}${b}`] is string concatenation. *)
Notation "a +++ b" := (String.append a b) (at level 60, right associativity).

(** The line feed of ['\n']. *)
Definition LF : string := String (ascii_of_nat 10) EmptyString.

(** [Array.prototype.join] on an array of strings. *)
Definition join (separator : string) (parts : list string) : string :=
  String.concat separator parts.

(** [contains text part]: [part] occurs in [text] as a contiguous run of
    characters. *)
Fixpoint contains (text part : string) : bool :=
  String.prefix part text
  || match text with
     | EmptyString => false
     | String _ rest => contains rest part
     end.

(** JavaScript's [value || fallback] on an optional string: [undefined]
    and the empty string are the falsy values of that type. *)
Definition js_or (value : option string) (fallback : string) : string :=
  match value with
  | None => fallback
  | Some EmptyString => fallback
  | Some s => s
  end.

(** A default of a destructuring pattern, [{ field = fallback }]: it
    applies when the field is [undefined]. *)
Definition js_default {A : Type} (value : option A) (fallback : A) : A :=
  match value with
  | None => fallback
  | Some a => a
  end.

(** [SAFE_LIMIT] is 2^53.  A [number] is an IEEE-754 double: it holds
    every integer from 0 to 2^53, while 2^53 + 1 is not a double and
    rounds back to 2^53. *)
Definition SAFE_LIMIT : Z := 2 ^ 53.

(** The value that [n++] leaves in a [number] variable holding the
    integer [n], for [0 <= n <= 2^53]. *)
Definition js_incr (n : Z) : Z :=
  if n <? SAFE_LIMIT then n + 1 else n.

(** ** Executions

    An execution starts in a state of the world and yields a value, the
    state it leaves and the calls it made, oldest first. *)
Module Exec.

Record run (W L A : Type) : Type := Run {
  ret_val : A;
  world_after : W;
  calls : list L
}.

Arguments Run {W L A} _ _ _.
Arguments ret_val {W L A} _.
Arguments world_after {W L A} _.
Arguments calls {W L A} _.

Definition M (W L A : Type) : Type := W -> run W L A.

Definition ret {W L A : Type} (a : A) : M W L A :=
  fun w => Run a w [].

Definition bind {W L A B : Type} (m : M W L A) (k : A -> M W L B) : M W L B :=
  fun w =>
    let r1 := m w in
    let r2 := k (ret_val r1) (world_after r1) in
    Run (ret_val r2) (world_after r2) (calls r1 ++ calls r2).

(** [Array.prototype.map] with a callback that has effects: the callback
    runs on every element, first to last. *)
Definition mapM {W L A B : Type} (f : A -> M W L B) : list A -> M W L (list B) :=
  fix go (l : list A) : M W L (list B) :=
    match l with
    | [] => ret []
    | a :: rest =>
        bind (f a) (fun b => bind (go rest) (fun bs => ret (b :: bs)))
    end.

End Exec.

Import Exec.

Notation "x <- m ;; k" := (Exec.bind m (fun x => k))
  (at level 61, m at next level, right associativity).

(** ** [utils.ts], newer revision: [MaybeError] *)
Module MaybeError.

(** Modelled from the spec: utils.ts, which declares the class
    [MaybeError], is not among the sources.  A validation result is
    either a success without payload or a failure carrying its
    diagnostic messages in the order of discovery. *)
Inductive t : Type :=
| Success
| Failure (messages : list string).

(** Modelled from the spec: [MaybeError.success] of the missing
    utils.ts, the success without payload. *)
Definition success : t := Success.

(** Modelled from the spec: [MaybeError.fail] of the missing utils.ts,
    a failure built from one message. *)
Definition fail (message : string) : t := Failure [message].

(** Modelled from the spec: [isError] of the missing utils.ts, the
    predicate used for branching. *)
Definition isError (r : t) : bool :=
  match r with
  | Success => false
  | Failure _ => true
  end.

(** The messages a result carries; none for a success. *)
Definition messages (r : t) : list string :=
  match r with
  | Success => []
  | Failure ms => ms
  end.

(** Modelled from the spec: [conjoin] of the missing utils.ts.  Two
    successes give a success, one failure gives that failure, and two
    failures give the messages of the first followed by those of the
    second. *)
Definition conjoin (a b : t) : t :=
  match a, b with
  | Success, Success => Success
  | Success, Failure mb => Failure mb
  | Failure ma, Success => Failure ma
  | Failure ma, Failure mb => Failure (ma ++ mb)
  end.

(** Modelled from the spec: [MaybeError.foldConjoin] of the missing
    utils.ts, which conjoins all the results of a sequence into one,
    starting from the success. *)
Definition foldConjoin (results : list t) : t :=
  fold_left conjoin results success.

End MaybeError.

(** ** [utils.ts], older revision: [Left] and [Right] *)
Module Either.

(** Modelled from the spec: utils.ts, which declares the classes [Left]
    and [Right], is not among the sources.  A validation result has two
    cases; in this revision the failure is a [Left] and the success a
    [Right], each built from one value that is read back as [.value]. *)
Inductive t (L R : Type) : Type :=
| Left (value : L)
| Right (value : R).

Arguments Left {L R} _.
Arguments Right {L R} _.

(** [result instanceof Left]. *)
Definition isLeft {L R : Type} (r : t L R) : bool :=
  match r with
  | Left _ => true
  | Right _ => false
  end.

(** The [.value] of every [Left] of a list, in order: the callback
    [(left) => left.value] mapped over the results kept by the filter
    [(result) => result instanceof Left]. *)
Fixpoint leftValues {L R : Type} (results : list (t L R)) : list L :=
  match results with
  | [] => []
  | Left v :: rest => v :: leftValues rest
  | Right _ :: rest => leftValues rest
  end.

End Either.

(** ** [classes.ts], newer revision *)
Module V2.

Section Engine.

(** The state of the world that sample generation reads and changes, and
    the candidate types ([InstanceConstructor] of instances.ts) with the
    [.name] that every JavaScript class has. *)
Context {World InstanceConstructor : Type}.
Variable instance_name : InstanceConstructor -> string.

Definition ValidationResult : Type := MaybeError.t.

(** The interface [Validator] of validators.ts: one method,
    [check(instance)]. *)
Record Validator : Type := {
  check : InstanceConstructor -> World -> ValidationResult * World
}.

Definition Laws : Type := Validator.

(** Modelled from the spec: [all] of validators.ts, which is not among
    the sources.  It runs [check] on each child in turn against the same
    candidate and folds all the results with [conjoin]. *)
Definition all (validators : list Laws) : Laws :=
  {| check := fun instance w =>
       let step (acc : list ValidationResult * World) (v : Laws) :=
         let (r, w') := check v instance (snd acc) in
         (fst acc ++ [r], w') in
       let (results, w') := fold_left step validators ([], w) in
       (MaybeError.foldConjoin results, w') |}.

Inductive Class : Type := mkClass {
  parents : list Class;
  laws : Laws;
  name : string;
  id : Z
}.

(** The interface [ClassOptions]: the optional fields [name?],
    [extends?] and [laws?]; [None] is a field left out. *)
Record ClassOptions : Type := {
  opt_name : option string;
  opt_extends : option (list Class);
  opt_laws : option Laws
}.

(** [new Class(options)].  The module-level [idCounter] is passed in and
    its new value is returned next to the object. *)
Definition new_Class (options : ClassOptions) (idCounter : Z) : Class * Z :=
  let parents := js_default (opt_extends options) [] in
  let laws := js_default (opt_laws options) (all []) in
  let name := opt_name options in
  ({| parents := parents;
      laws := laws;
      name := js_or name "Unnamed";
      id := idCounter |},
   js_incr idCounter).

(** [let idCounter = 0] *)
Definition idCounter_init : Z := 0.

(** A sequence of constructions, one after the other. *)
Fixpoint new_Classes (optionss : list ClassOptions) (idCounter : Z)
  : list Class * Z :=
  match optionss with
  | [] => ([], idCounter)
  | options :: rest =>
      let (c, idCounter1) := new_Class options idCounter in
      let (cs, idCounter2) := new_Classes rest idCounter1 in
      (c :: cs, idCounter2)
  end.

(** The value of [idCounter] after [n] constructions. *)
Definition idCounter_after (n : N) (options : ClassOptions) (idCounter : Z) : Z :=
  N.iter n (fun counter => snd (new_Class options counter)) idCounter.

(** The calls an execution records: a call of [validate] on a class,
    with the calls made inside it, and a call of [check] on the laws of
    a class. *)
Inductive Call : Type :=
| CallValidate (callee : Class) (inner : list Call)
| CallCheck (owner : Class).

Definition Run (A : Type) : Type := Exec.run World Call A.

(** Running [m] as the body of [c.validate]. *)
Definition in_validate {A : Type} (c : Class) (m : M World Call A) : M World Call A :=
  fun w =>
    let r := m w in
    Exec.Run (ret_val r) (world_after r) [CallValidate c (calls r)].

(** [this.laws.check(instance)] *)
Definition check_laws (c : Class) (instance : InstanceConstructor)
  : M World Call ValidationResult :=
  fun w =>
    let (r, w') := check (laws c) instance w in
    Exec.Run r w' [CallCheck c].

(** The message of a failed prerequisite. *)
Definition context_message (instance : InstanceConstructor) (c : Class) : string :=
  "Class " +++ instance_name instance
  +++ " fails the prerequisites to be a " +++ name c.

Fixpoint validate (c : Class) (instance : InstanceConstructor)
  : M World Call ValidationResult :=
  in_validate c (
    results <- mapM (fun parent => validate parent instance) (parents c) ;;
    let parentResults := MaybeError.foldConjoin results in
    if MaybeError.isError parentResults then
      ret (MaybeError.conjoin parentResults
             (MaybeError.fail (context_message instance c)))
    else
      check_laws c instance).

(** [this.parents.map((parent) => parent.validate(instance))] *)
Definition validate_parents (ps : list Class) (instance : InstanceConstructor)
  : M World Call (list ValidationResult) :=
  mapM (fun parent => validate parent instance) ps.

(** The classes on which the calls of a list call [validate], and the
    number of calls of [check] in it. *)
Fixpoint validate_callees (cs : list Call) : list Class :=
  match cs with
  | [] => []
  | CallValidate callee _ :: rest => callee :: validate_callees rest
  | CallCheck _ :: rest => validate_callees rest
  end.

Fixpoint check_count (cs : list Call) : nat :=
  match cs with
  | [] => O
  | CallValidate _ _ :: rest => check_count rest
  | CallCheck _ :: rest => S (check_count rest)
  end.

(** The calls made directly by the body of the outermost call. *)
Definition direct_calls (cs : list Call) : list Call :=
  match cs with
  | [CallValidate _ inner] => inner
  | _ => []
  end.

(** [threaded ps w rs w']: starting in [w], validating the classes of
    [ps] one after the other, each in the state the one before left,
    gives the results [rs] and leaves [w']. *)
Inductive threaded (instance : InstanceConstructor)
  : list Class -> World -> list ValidationResult -> World -> Prop :=
| threaded_nil w : threaded instance [] w [] w
| threaded_cons p ps w rs w' :
    threaded instance ps (world_after (validate p instance w)) rs w' ->
    threaded instance (p :: ps) w (ret_val (validate p instance w) :: rs) w'.

(** Two classes that differ at most in the names and the ids of the
    classes they are built from. *)
Inductive same_but_names : Class -> Class -> Prop :=
| same_but_names_intro ps ps' l n n' i i' :
    Forall2 same_but_names ps ps' ->
    same_but_names (mkClass ps l n i) (mkClass ps' l n' i').

End Engine.

Arguments Validator : clear implicits.
Arguments Laws : clear implicits.
Arguments Class : clear implicits.
Arguments Call : clear implicits.
Arguments ClassOptions : clear implicits.

End V2.

(** ** [classes.ts], older revision *)
Module V1.

Import Either.

Section Engine.

Context {World InstanceConstructor RightValue : Type}.
Variable instance_name : InstanceConstructor -> string.

(** A failure is a [Left] holding a string; [RightValue] is whatever a
    success holds. *)
Definition ValidationResult : Type := Either.t string RightValue.

Record Validator : Type := {
  check : InstanceConstructor -> World -> ValidationResult * World
}.

Definition Laws : Type := Validator.

(** [all] of validators.ts, which is not among the sources: the
    constructor of a class only calls it, without arguments. *)
Variable all : list Laws -> Laws.

Inductive Class : Type := mkClass {
  parents : list Class;
  laws : Laws;
  name : string
}.

(** The interface [ClassOptions]: the optional fields [name?],
    [extends?] and [laws?]; [None] is a field left out. *)
Record ClassOptions : Type := {
  opt_name : option string;
  opt_extends : option (list Class);
  opt_laws : option Laws
}.

(** [new Class(options)] *)
Definition new_Class (options : ClassOptions) : Class :=
  let parents := js_default (opt_extends options) [] in
  let laws := js_default (opt_laws options) (all []) in
  let name := opt_name options in
  {| parents := parents;
     laws := laws;
     name := js_or name "Unnamed" |}.

Inductive Call : Type :=
| CallValidate (callee : Class) (inner : list Call)
| CallCheck (owner : Class).

Definition Run (A : Type) : Type := Exec.run World Call A.

(** Running [m] as the body of [c.validate]. *)
Definition in_validate {A : Type} (c : Class) (m : M World Call A) : M World Call A :=
  fun w =>
    let r := m w in
    Exec.Run (ret_val r) (world_after r) [CallValidate c (calls r)].

(** [this.laws.check(instance)] *)
Definition check_laws (c : Class) (instance : InstanceConstructor)
  : M World Call ValidationResult :=
  fun w =>
    let (r, w') := check (laws c) instance w in
    Exec.Run r w' [CallCheck c].

(** The first line of the message of a failed prerequisite. *)
Definition context_message (instance : InstanceConstructor) (c : Class) : string :=
  "Class " +++ instance_name instance
  +++ " fails the prerequisites to be a " +++ name c.

(** A [number] used as a condition is true unless it is zero. *)
Definition truthy (n : nat) : bool := negb (Nat.eqb n 0).

Fixpoint validate (c : Class) (instance : InstanceConstructor)
  : M World Call ValidationResult :=
  in_validate c (
    results <- mapM (fun parent => validate parent instance) (parents c) ;;
    let parentLefts := filter isLeft results in
    if truthy (List.length parentLefts) then
      ret (Left (context_message instance c +++ LF +++ LF
                 +++ join (LF +++ LF) (leftValues parentLefts)))
    else
      check_laws c instance).

(** [this.parents.map((parent) => parent.validate(instance))] *)
Definition validate_parents (ps : list Class) (instance : InstanceConstructor)
  : M World Call (list ValidationResult) :=
  mapM (fun parent => validate parent instance) ps.

Fixpoint validate_callees (cs : list Call) : list Class :=
  match cs with
  | [] => []
  | CallValidate callee _ :: rest => callee :: validate_callees rest
  | CallCheck _ :: rest => validate_callees rest
  end.

Fixpoint check_count (cs : list Call) : nat :=
  match cs with
  | [] => O
  | CallValidate _ _ :: rest => check_count rest
  | CallCheck _ :: rest => S (check_count rest)
  end.

Definition direct_calls (cs : list Call) : list Call :=
  match cs with
  | [CallValidate _ inner] => inner
  | _ => []
  end.

Inductive threaded (instance : InstanceConstructor)
  : list Class -> World -> list ValidationResult -> World -> Prop :=
| threaded_nil w : threaded instance [] w [] w
| threaded_cons p ps w rs w' :
    threaded instance ps (world_after (validate p instance w)) rs w' ->
    threaded instance (p :: ps) w (ret_val (validate p instance w) :: rs) w'.

Inductive same_but_names : Class -> Class -> Prop :=
| same_but_names_intro ps ps' l n n' :
    Forall2 same_but_names ps ps' ->
    same_but_names (mkClass ps l n) (mkClass ps' l n').

End Engine.

Arguments Validator : clear implicits.
Arguments Laws : clear implicits.
Arguments Class : clear implicits.
Arguments Call : clear implicits.
Arguments ClassOptions : clear implicits.
Arguments ValidationResult : clear implicits.

End V1.

(** ** Sample contracts

    The contracts of the README: [Eq], and [Addable] which extends it.
    The world is the number of calls of [check] made so far. *)
Module Sample.

Inductive Candidate : Type := Num | Vec.

Definition candidate_name (k : Candidate) : string :=
  match k with
  | Num => "Num"
  | Vec => "Vec"
  end.

Module New.

Definition Laws : Type := V2.Laws nat Candidate.
Definition Class : Type := V2.Class nat Candidate.

(** A law that holds on every candidate, and one that holds on none. *)
Definition holds : Laws :=
  {| V2.check := fun _ w => (MaybeError.success, S w) |}.

Definition broken (message : string) : Laws :=
  {| V2.check := fun _ w => (MaybeError.fail message, S w) |}.

Definition options (name : string) (extends : list Class) (laws : Laws)
  : V2.ClassOptions nat Candidate :=
  {| V2.opt_name := Some name;
     V2.opt_extends := Some extends;
     V2.opt_laws := Some laws |}.

Definition eq : Class :=
  fst (V2.new_Class (options "Eq" [] (broken "reflexivity does not hold")) 0).

Definition addable : Class :=
  fst (V2.new_Class (options "Addable" [eq] (broken "commutativity does not hold")) 1).

Definition monoid : Class :=
  fst (V2.new_Class (options "Monoid" [eq] holds) 2).

Definition showable : Class :=
  fst (V2.new_Class (options "Showable" [] holds) 3).

Definition validate : Class -> Candidate -> nat -> _ :=
  V2.validate candidate_name.

End New.

Module Old.

Definition Laws : Type := V1.Laws nat Candidate unit.
Definition Class : Type := V1.Class nat Candidate unit.

Definition holds : Laws :=
  {| V1.check := fun _ w => (Either.Right tt, S w) |}.

Definition broken (message : string) : Laws :=
  {| V1.check := fun _ w => (Either.Left message, S w) |}.

(** A stand-in for the missing [all]: it succeeds without children
    and fails otherwise. *)
Definition all (validators : list Laws) : Laws :=
  {| V1.check := fun _ w =>
       match validators with
       | [] => (Either.Right tt, w)
       | _ => (Either.Left "some law does not hold"%string, w)
       end |}.

Definition options (name : string) (extends : list Class) (laws : Laws)
  : V1.ClassOptions nat Candidate unit :=
  {| V1.opt_name := Some name;
     V1.opt_extends := Some extends;
     V1.opt_laws := Some laws |}.

Definition eq : Class :=
  V1.new_Class all (options "Eq" [] (broken "reflexivity does not hold")).

Definition addable : Class :=
  V1.new_Class all (options "Addable" [eq] (broken "commutativity does not hold")).

Definition monoid : Class :=
  V1.new_Class all (options "Monoid" [eq] holds).

Definition showable : Class :=
  V1.new_Class all (options "Showable" [] holds).

Definition validate : Class -> Candidate -> nat -> _ :=
  V1.validate candidate_name.

End Old.

End Sample.

(** ** Comparing the two revisions

    A result of the older revision and one of the newer have the same
    outcome when one is a [Left] exactly when the other is an error;
    two executions agree when they have the same outcome and leave the
    same world. *)
Module Compare.

Section Compare.

Context {World RightValue L1 L2 : Type}.

Definition same_outcome
  (r1 : V1.ValidationResult RightValue) (r2 : V2.ValidationResult) : Prop :=
  Either.isLeft r1 = MaybeError.isError r2.

Definition same_check
  (r1 : V1.ValidationResult RightValue * World)
  (r2 : V2.ValidationResult * World) : Prop :=
  same_outcome (fst r1) (fst r2) /\ snd r1 = snd r2.

Definition same_run
  (r1 : Exec.run World L1 (V1.ValidationResult RightValue))
  (r2 : Exec.run World L2 V2.ValidationResult) : Prop :=
  same_outcome (ret_val r1) (ret_val r2)
  /\ world_after r1 = world_after r2.

End Compare.

End Compare.

(** ** Hierarchies

    The prerequisites of a class, the prerequisites of those and so on
    form a tree, in which a class that is reached along two paths
    occurs twice.  [preorder] lists the tree with every class before its
    prerequisites, [postorder] with every class after them; [validated]
    and [checked] read off a call tree the classes on which [validate]
    was called and those whose laws were checked, in the order of the
    calls; [passes] checks a list of laws one after the other and stops
    at the first that fails. *)

Inductive subsequence {A : Type} : list A -> list A -> Prop :=
| subsequence_nil : subsequence [] []
| subsequence_skip x l l' : subsequence l l' -> subsequence l (x :: l')
| subsequence_keep x l l' : subsequence l l' -> subsequence (x :: l) (x :: l').

Module Hierarchy.

Module New.

Section Walk.

Context {World InstanceConstructor : Type}.

Fixpoint preorder (c : V2.Class World InstanceConstructor)
  : list (V2.Class World InstanceConstructor) :=
  c :: flat_map preorder (V2.parents c).

Fixpoint postorder (c : V2.Class World InstanceConstructor)
  : list (V2.Class World InstanceConstructor) :=
  flat_map postorder (V2.parents c) ++ [c].

Fixpoint validated (k : V2.Call World InstanceConstructor)
  : list (V2.Class World InstanceConstructor) :=
  match k with
  | V2.CallValidate callee inner => callee :: flat_map validated inner
  | V2.CallCheck _ => []
  end.

Fixpoint checked (k : V2.Call World InstanceConstructor)
  : list (V2.Class World InstanceConstructor) :=
  match k with
  | V2.CallValidate _ inner => flat_map checked inner
  | V2.CallCheck owner => [owner]
  end.

Fixpoint passes (ls : list (V2.Laws World InstanceConstructor))
  (instance : InstanceConstructor) (w : World) : option World :=
  match ls with
  | [] => Some w
  | l :: rest =>
      let (r, w') := V2.check l instance w in
      if MaybeError.isError r then None else passes rest instance w'
  end.

End Walk.

End New.

Module Old.

Section Walk.

Context {World InstanceConstructor RightValue : Type}.

Fixpoint preorder (c : V1.Class World InstanceConstructor RightValue)
  : list (V1.Class World InstanceConstructor RightValue) :=
  c :: flat_map preorder (V1.parents c).

Fixpoint postorder (c : V1.Class World InstanceConstructor RightValue)
  : list (V1.Class World InstanceConstructor RightValue) :=
  flat_map postorder (V1.parents c) ++ [c].

Fixpoint validated (k : V1.Call World InstanceConstructor RightValue)
  : list (V1.Class World InstanceConstructor RightValue) :=
  match k with
  | V1.CallValidate callee inner => callee :: flat_map validated inner
  | V1.CallCheck _ => []
  end.

Fixpoint checked (k : V1.Call World InstanceConstructor RightValue)
  : list (V1.Class World InstanceConstructor RightValue) :=
  match k with
  | V1.CallValidate _ inner => flat_map checked inner
  | V1.CallCheck owner => [owner]
  end.

Fixpoint passes (ls : list (V1.Laws World InstanceConstructor RightValue))
  (instance : InstanceConstructor) (w : World) : option World :=
  match ls with
  | [] => Some w
  | l :: rest =>
      let (r, w') := V1.check l instance w in
      if Either.isLeft r then None else passes rest instance w'
  end.

End Walk.

End Old.

Section Corresponds.

Context {World InstanceConstructor RightValue : Type}.

(** A hierarchy of the older revision and one of the newer correspond
    on a candidate when they have the same shape and the laws at the
    same place have the same outcome and the same effect. *)
Inductive corresponds (instance : InstanceConstructor)
  : V1.Class World InstanceConstructor RightValue
    -> V2.Class World InstanceConstructor -> Prop :=
| corresponds_intro ps1 l1 n1 ps2 l2 n2 i2 :
    Forall2 (corresponds instance) ps1 ps2 ->
    (forall w, Compare.same_check (V1.check l1 instance w)
                                  (V2.check l2 instance w)) ->
    corresponds instance (V1.mkClass ps1 l1 n1) (V2.mkClass ps2 l2 n2 i2).

End Corresponds.

End Hierarchy.

(** ** More sample contracts

    [Ring] extends [Group] and [Eq] side by side; [Tower] reaches the
    same laws through a chain; [Diamond] reaches [Eq] along two paths. *)
Module Shapes.

Definition group : Sample.New.Class :=
  fst (V2.new_Class (Sample.New.options "Group" [] Sample.New.holds) 10).

Definition ring : Sample.New.Class :=
  fst (V2.new_Class
         (Sample.New.options "Ring" [group; Sample.New.eq] Sample.New.holds) 11).

Definition base : Sample.New.Class :=
  fst (V2.new_Class
         (Sample.New.options "Base" [group]
            (Sample.New.broken "reflexivity does not hold")) 12).

Definition tower : Sample.New.Class :=
  fst (V2.new_Class (Sample.New.options "Tower" [base] Sample.New.holds) 13).

Definition diamond : Sample.New.Class :=
  fst (V2.new_Class
         (Sample.New.options "Diamond" [Sample.New.monoid; Sample.New.addable]
            Sample.New.holds) 14).

Definition old_group : Sample.Old.Class :=
  V1.new_Class Sample.Old.all (Sample.Old.options "Group" [] Sample.Old.holds).

Definition old_ring : Sample.Old.Class :=
  V1.new_Class Sample.Old.all
    (Sample.Old.options "Ring" [old_group; Sample.Old.eq] Sample.Old.holds).

Definition old_base : Sample.Old.Class :=
  V1.new_Class Sample.Old.all
    (Sample.Old.options "Base" [old_group]
       (Sample.Old.broken "reflexivity does not hold")).

Definition old_tower : Sample.Old.Class :=
  V1.new_Class Sample.Old.all (Sample.Old.options "Tower" [old_base] Sample.Old.holds).

End Shapes.

(** * Properties *)

(** ** Strings *)

Lemma prefix_refl (s : string) : String.prefix s s = true.
Proof.
  induction s as [|a s IH]; simpl; [reflexivity|].
  destruct (ascii_dec a a) as [_|n]; [exact IH | now elim n].
Qed.

Lemma prefix_append (p s t : string) :
  String.prefix p s = true -> String.prefix p (s +++ t) = true.
Proof.
  revert p; induction s as [|b s IH]; intros [|a p]; simpl; try easy.
  - destruct t; reflexivity.
  - destruct (ascii_dec a b); [apply IH | discriminate].
Qed.

Lemma contains_cons (a : ascii) (text part : string) :
  contains (String a text) part
  = String.prefix part (String a text) || contains text part.
Proof. reflexivity. Qed.

Lemma contains_prefix (text part : string) :
  String.prefix part text = true -> contains text part = true.
Proof.
  intros H. destruct text; [cbn [contains] | rewrite contains_cons]; now rewrite H.
Qed.

Lemma contains_self (s : string) : contains s s = true.
Proof. apply contains_prefix, prefix_refl. Qed.

Lemma contains_append_r (s t part : string) :
  contains t part = true -> contains (s +++ t) part = true.
Proof.
  intros H. induction s as [|a s IH]; [exact H|].
  change (String a s +++ t) with (String a (s +++ t)).
  rewrite contains_cons, IH. apply orb_true_r.
Qed.

Lemma contains_append_l (s t part : string) :
  contains s part = true -> contains (s +++ t) part = true.
Proof.
  induction s as [|a s IH]; intros H.
  - destruct part; [|discriminate H].
    apply contains_prefix. now destruct t.
  - rewrite contains_cons in H.
    change (String a s +++ t) with (String a (s +++ t)).
    rewrite contains_cons.
    apply orb_true_iff in H as [H|H].
    + change (String a (s +++ t)) with (String a s +++ t).
      now rewrite (prefix_append _ _ t H).
    + rewrite (IH H). apply orb_true_r.
Qed.

(** ** [MaybeError] *)

Lemma conjoin_assoc (a b c : MaybeError.t) :
  MaybeError.conjoin (MaybeError.conjoin a b) c
  = MaybeError.conjoin a (MaybeError.conjoin b c).
Proof.
  destruct a, b, c; simpl; try reflexivity.
  now rewrite app_assoc.
Qed.

Lemma conjoin_success_l (x : MaybeError.t) :
  MaybeError.conjoin MaybeError.Success x = x.
Proof. now destruct x. Qed.

Lemma conjoin_success_r (x : MaybeError.t) :
  MaybeError.conjoin x MaybeError.Success = x.
Proof. now destruct x. Qed.

Lemma isError_conjoin (a b : MaybeError.t) :
  MaybeError.isError (MaybeError.conjoin a b)
  = MaybeError.isError a || MaybeError.isError b.
Proof. now destruct a, b. Qed.

Lemma messages_conjoin (a b : MaybeError.t) :
  MaybeError.messages (MaybeError.conjoin a b)
  = (MaybeError.messages a ++ MaybeError.messages b)%list.
Proof.
  destruct a, b; simpl; try reflexivity. now rewrite app_nil_r.
Qed.

Lemma fold_conjoin_from (rs : list MaybeError.t) (a : MaybeError.t) :
  fold_left MaybeError.conjoin rs a
  = MaybeError.conjoin a (MaybeError.foldConjoin rs).
Proof.
  unfold MaybeError.foldConjoin, MaybeError.success.
  revert a; induction rs as [|r rs IH]; intros a; cbn [fold_left].
  - now rewrite conjoin_success_r.
  - rewrite conjoin_success_l, (IH (MaybeError.conjoin a r)), (IH r).
    now rewrite conjoin_assoc.
Qed.

Lemma foldConjoin_cons (r : MaybeError.t) (rs : list MaybeError.t) :
  MaybeError.foldConjoin (r :: rs)
  = MaybeError.conjoin r (MaybeError.foldConjoin rs).
Proof.
  unfold MaybeError.foldConjoin at 1, MaybeError.success; cbn [fold_left].
  now rewrite conjoin_success_l, fold_conjoin_from.
Qed.

Lemma isError_foldConjoin (rs : list MaybeError.t) :
  MaybeError.isError (MaybeError.foldConjoin rs)
  = existsb MaybeError.isError rs.
Proof.
  induction rs as [|r rs IH]; [reflexivity|].
  now rewrite foldConjoin_cons, isError_conjoin, IH.
Qed.

Lemma messages_foldConjoin (rs : list MaybeError.t) :
  MaybeError.messages (MaybeError.foldConjoin rs)
  = List.concat (map MaybeError.messages rs).
Proof.
  induction rs as [|r rs IH]; [reflexivity|].
  now rewrite foldConjoin_cons, messages_conjoin, IH.
Qed.

Lemma failure_messages (r : MaybeError.t) :
  MaybeError.isError r = true -> r = MaybeError.Failure (MaybeError.messages r).
Proof. destruct r; simpl; [discriminate | reflexivity]. Qed.

(** ** Executions *)

Section ExecFacts.

Context {W L A B : Type}.
Variable f : A -> M W L B.

Lemma mapM_cons (a : A) (l : list A) (w : W) :
  mapM f (a :: l) w
  = let r1 := f a w in
    let r2 := mapM f l (world_after r1) in
    Exec.Run (ret_val r1 :: ret_val r2) (world_after r2)
             (calls r1 ++ calls r2).
Proof.
  simpl. unfold bind, ret. simpl. now rewrite app_nil_r.
Qed.

Lemma mapM_app (l1 l2 : list A) (w : W) :
  mapM f (l1 ++ l2) w
  = let r1 := mapM f l1 w in
    let r2 := mapM f l2 (world_after r1) in
    Exec.Run (ret_val r1 ++ ret_val r2) (world_after r2)
             (calls r1 ++ calls r2).
Proof.
  revert w; induction l1 as [|a l1 IH]; intros w.
  - simpl. now destruct (mapM f l2 w).
  - rewrite <- app_comm_cons, !mapM_cons. cbv zeta. rewrite IH. cbv zeta.
    simpl. now rewrite app_assoc.
Qed.

Lemma mapM_length (l : list A) (w : W) :
  List.length (ret_val (mapM f l w)) = List.length l.
Proof.
  revert w; induction l as [|a l IH]; intros w; [reflexivity|].
  rewrite mapM_cons. simpl. now rewrite IH.
Qed.

End ExecFacts.

(** ** [validate], newer revision *)

Section V2Facts.

Context {World InstanceConstructor : Type}.
Variable instance_name : InstanceConstructor -> string.

Local Notation Class := (V2.Class World InstanceConstructor).
Local Notation validate := (V2.validate instance_name).
Local Notation validate_parents := (V2.validate_parents instance_name).
Local Notation context_message := (V2.context_message instance_name).

(** Induction on a class with the hypothesis on all its parents. *)
Lemma V2_Class_ind (P : Class -> Prop) :
  (forall ps l n i, Forall P ps -> P (V2.mkClass ps l n i)) ->
  forall c, P c.
Proof.
  intros step. fix self 1. intros [ps l n i]. apply step.
  induction ps as [|p ps IH]; constructor; [apply self | exact IH].
Qed.

(** One call of [validate], spelled out. *)
Lemma V2_validate_run (c : Class) (instance : InstanceConstructor) (w : World) :
  let pre := validate_parents (V2.parents c) instance w in
  let parentResults := MaybeError.foldConjoin (ret_val pre) in
  let own := V2.check (V2.laws c) instance (world_after pre) in
  validate c instance w
  = if MaybeError.isError parentResults then
      Exec.Run
        (MaybeError.conjoin parentResults
           (MaybeError.fail (context_message instance c)))
        (world_after pre)
        [V2.CallValidate c (calls pre)]
    else
      Exec.Run (fst own) (snd own)
        [V2.CallValidate c (calls pre ++ [V2.CallCheck c])].
Proof.
  destruct c as [ps l n i]. cbv zeta.
  unfold V2.validate_parents.
  change (V2.validate instance_name (V2.mkClass ps l n i) instance w)
    with (V2.in_validate (V2.mkClass ps l n i)
            (results <- mapM (fun parent => V2.validate instance_name parent instance) ps ;;
             let parentResults := MaybeError.foldConjoin results in
             if MaybeError.isError parentResults then
               ret (MaybeError.conjoin parentResults
                      (MaybeError.fail (context_message instance (V2.mkClass ps l n i))))
             else V2.check_laws (V2.mkClass ps l n i) instance) w).
  unfold V2.in_validate, bind. cbv zeta.
  destruct (MaybeError.isError _).
  - unfold ret. cbn [ret_val world_after calls]. now rewrite app_nil_r.
  - unfold V2.check_laws. cbn [V2.laws].
    destruct (V2.check l instance _) as [r w']. reflexivity.
Qed.

Lemma V2_validate_calls (c : Class) (instance : InstanceConstructor) (w : World) :
  calls (validate c instance w)
  = [V2.CallValidate c (V2.direct_calls (calls (validate c instance w)))].
Proof.
  rewrite V2_validate_run. cbv zeta. now destruct (MaybeError.isError _).
Qed.

Lemma V2_parents_callees (ps : list Class) (instance : InstanceConstructor) (w : World) :
  V2.validate_callees (calls (validate_parents ps instance w)) = ps.
Proof.
  unfold V2.validate_parents.
  revert w; induction ps as [|p ps IH]; intros w; [reflexivity|].
  rewrite mapM_cons. cbv zeta. cbn [calls].
  rewrite V2_validate_calls. cbn [app V2.validate_callees]. now rewrite IH.
Qed.

Lemma V2_parents_no_check (ps : list Class) (instance : InstanceConstructor) (w : World) :
  V2.check_count (calls (validate_parents ps instance w)) = O.
Proof.
  unfold V2.validate_parents.
  revert w; induction ps as [|p ps IH]; intros w; [reflexivity|].
  rewrite mapM_cons. cbv zeta. cbn [calls].
  rewrite V2_validate_calls. cbn [app V2.check_count]. apply IH.
Qed.

Lemma V2_callees_app (xs ys : list (V2.Call World InstanceConstructor)) :
  V2.validate_callees (xs ++ ys)
  = (V2.validate_callees xs ++ V2.validate_callees ys)%list.
Proof.
  induction xs as [|[callee inner|owner] xs IH]; simpl; now rewrite ?IH.
Qed.

Lemma V2_check_count_app (xs ys : list (V2.Call World InstanceConstructor)) :
  V2.check_count (xs ++ ys) = (V2.check_count xs + V2.check_count ys)%nat.
Proof.
  induction xs as [|[callee inner|owner] xs IH]; simpl; now rewrite ?IH.
Qed.

Lemma V2_parents_threaded (ps : list Class) (instance : InstanceConstructor) (w : World) :
  V2.threaded instance_name instance ps w
    (ret_val (validate_parents ps instance w))
    (world_after (validate_parents ps instance w)).
Proof.
  unfold V2.validate_parents.
  revert w; induction ps as [|p ps IH]; intros w; [constructor|].
  rewrite mapM_cons. cbv zeta. cbn [ret_val world_after].
  constructor. apply IH.
Qed.

End V2Facts.

(** ** [validate], older revision *)

Section V1Facts.

Context {World InstanceConstructor RightValue : Type}.
Variable instance_name : InstanceConstructor -> string.

Local Notation Class := (V1.Class World InstanceConstructor RightValue).
Local Notation validate := (V1.validate instance_name).
Local Notation validate_parents := (V1.validate_parents instance_name).
Local Notation context_message := (V1.context_message instance_name).

Lemma V1_Class_ind (P : Class -> Prop) :
  (forall ps l n, Forall P ps -> P (V1.mkClass ps l n)) ->
  forall c, P c.
Proof.
  intros step. fix self 1. intros [ps l n]. apply step.
  induction ps as [|p ps IH]; constructor; [apply self | exact IH].
Qed.

Lemma V1_validate_run (c : Class) (instance : InstanceConstructor) (w : World) :
  let pre := validate_parents (V1.parents c) instance w in
  let parentLefts := filter Either.isLeft (ret_val pre) in
  let own := V1.check (V1.laws c) instance (world_after pre) in
  validate c instance w
  = if V1.truthy (List.length parentLefts) then
      Exec.Run
        (Either.Left (context_message instance c +++ LF +++ LF
                      +++ join (LF +++ LF) (Either.leftValues parentLefts)))
        (world_after pre)
        [V1.CallValidate c (calls pre)]
    else
      Exec.Run (fst own) (snd own)
        [V1.CallValidate c (calls pre ++ [V1.CallCheck c])].
Proof.
  destruct c as [ps l n]. cbv zeta.
  unfold V1.validate_parents.
  change (V1.validate instance_name (V1.mkClass ps l n) instance w)
    with (V1.in_validate (V1.mkClass ps l n)
            (results <- mapM (fun parent => V1.validate instance_name parent instance) ps ;;
             let parentLefts := filter Either.isLeft results in
             if V1.truthy (List.length parentLefts) then
               ret (Either.Left
                      (context_message instance (V1.mkClass ps l n) +++ LF +++ LF
                       +++ join (LF +++ LF) (Either.leftValues parentLefts)))
             else V1.check_laws (V1.mkClass ps l n) instance) w).
  unfold V1.in_validate, bind. cbv zeta.
  destruct (V1.truthy _).
  - unfold ret. cbn [ret_val world_after calls]. now rewrite app_nil_r.
  - unfold V1.check_laws. cbn [V1.laws].
    destruct (V1.check l instance _) as [r w']. reflexivity.
Qed.

Lemma V1_validate_calls (c : Class) (instance : InstanceConstructor) (w : World) :
  calls (validate c instance w)
  = [V1.CallValidate c (V1.direct_calls (calls (validate c instance w)))].
Proof.
  rewrite V1_validate_run. cbv zeta. now destruct (V1.truthy _).
Qed.

Lemma V1_parents_callees (ps : list Class) (instance : InstanceConstructor) (w : World) :
  V1.validate_callees (calls (validate_parents ps instance w)) = ps.
Proof.
  unfold V1.validate_parents.
  revert w; induction ps as [|p ps IH]; intros w; [reflexivity|].
  rewrite mapM_cons. cbv zeta. cbn [calls].
  rewrite V1_validate_calls. cbn [app V1.validate_callees]. now rewrite IH.
Qed.

Lemma V1_parents_no_check (ps : list Class) (instance : InstanceConstructor) (w : World) :
  V1.check_count (calls (validate_parents ps instance w)) = O.
Proof.
  unfold V1.validate_parents.
  revert w; induction ps as [|p ps IH]; intros w; [reflexivity|].
  rewrite mapM_cons. cbv zeta. cbn [calls].
  rewrite V1_validate_calls. cbn [app V1.check_count]. apply IH.
Qed.

Lemma V1_callees_app (xs ys : list (V1.Call World InstanceConstructor RightValue)) :
  V1.validate_callees (xs ++ ys)
  = (V1.validate_callees xs ++ V1.validate_callees ys)%list.
Proof.
  induction xs as [|[callee inner|owner] xs IH]; simpl; now rewrite ?IH.
Qed.

Lemma V1_check_count_app (xs ys : list (V1.Call World InstanceConstructor RightValue)) :
  V1.check_count (xs ++ ys) = (V1.check_count xs + V1.check_count ys)%nat.
Proof.
  induction xs as [|[callee inner|owner] xs IH]; simpl; now rewrite ?IH.
Qed.

Lemma V1_parents_threaded (ps : list Class) (instance : InstanceConstructor) (w : World) :
  V1.threaded instance_name instance ps w
    (ret_val (validate_parents ps instance w))
    (world_after (validate_parents ps instance w)).
Proof.
  unfold V1.validate_parents.
  revert w; induction ps as [|p ps IH]; intros w; [constructor|].
  rewrite mapM_cons. cbv zeta. cbn [ret_val world_after].
  constructor. apply IH.
Qed.

(** Facts on the results kept by the filter. *)
Lemma truthy_length_filter (rs : list (V1.ValidationResult RightValue)) :
  V1.truthy (List.length (filter Either.isLeft rs)) = existsb Either.isLeft rs.
Proof.
  induction rs as [|[v|v] rs IH]; simpl; [reflexivity | reflexivity | exact IH].
Qed.

Lemma leftValues_filter (rs : list (V1.ValidationResult RightValue)) :
  Either.leftValues (filter Either.isLeft rs) = Either.leftValues rs.
Proof.
  induction rs as [|[v|v] rs IH]; simpl; now rewrite ?IH.
Qed.

End V1Facts.

(** ** The identifier counter *)

Lemma js_incr_below (n : Z) : n < SAFE_LIMIT -> js_incr n = n + 1.
Proof.
  intros H. unfold js_incr. now apply Z.ltb_lt in H as ->.
Qed.

Lemma js_incr_at_limit : js_incr SAFE_LIMIT = SAFE_LIMIT.
Proof. reflexivity. Qed.

Lemma strictly_sorted_NoDup (l : list Z) : StronglySorted Z.lt l -> NoDup l.
Proof.
  induction 1 as [|a l _ IH Hall]; constructor; [|exact IH].
  intros Hin. rewrite Forall_forall in Hall. specialize (Hall a Hin). lia.
Qed.

Section Counter.

Context {World InstanceConstructor : Type}.

Local Notation ClassOptions := (V2.ClassOptions World InstanceConstructor).

Lemma new_Class_id (options : ClassOptions) (idCounter : Z) :
  V2.id (fst (V2.new_Class options idCounter)) = idCounter
  /\ snd (V2.new_Class options idCounter) = js_incr idCounter.
Proof. split; reflexivity. Qed.

Lemma new_Classes_ids (optionss : list ClassOptions) (idCounter : Z) :
  idCounter + Z.of_nat (List.length optionss) <= SAFE_LIMIT ->
  Forall (fun k => idCounter <= k)
    (map V2.id (fst (V2.new_Classes optionss idCounter)))
  /\ StronglySorted Z.lt (map V2.id (fst (V2.new_Classes optionss idCounter)))
  /\ snd (V2.new_Classes optionss idCounter)
     = idCounter + Z.of_nat (List.length optionss).
Proof.
  revert idCounter; induction optionss as [|options rest IH]; intros idCounter Hroom.
  - simpl. repeat split; [constructor | constructor | lia].
  - cbn [List.length] in Hroom.
    cbn [V2.new_Classes].
    destruct (V2.new_Class options idCounter) as [c idCounter1] eqn:Hnew.
    pose proof (new_Class_id options idCounter) as [Hid Hnext].
    rewrite Hnew in Hid, Hnext. cbn [fst snd] in Hid, Hnext.
    rewrite js_incr_below in Hnext by lia.
    destruct (IH idCounter1) as (Hlow & Hsorted & Hend); [lia|].
    destruct (V2.new_Classes rest idCounter1) as [cs idCounter2].
    cbn [fst snd map] in *. rewrite Hid.
    assert (Hall : Forall (fun k => idCounter < k) (map V2.id cs)).
    { eapply Forall_impl; [|exact Hlow]. cbv beta. intros k Hk. lia. }
    repeat split.
    + constructor; [lia|]. eapply Forall_impl; [|exact Hall]. cbv beta. lia.
    + constructor; assumption.
    + cbn [List.length]. lia.
Qed.

Lemma idCounter_after_eq (n : N) (options : ClassOptions) (idCounter : Z) :
  idCounter <= SAFE_LIMIT ->
  V2.idCounter_after n options idCounter
  = Z.min (idCounter + Z.of_N n) SAFE_LIMIT.
Proof.
  intros Hle. unfold V2.idCounter_after.
  induction n as [|n IH] using N.peano_ind.
  - simpl. lia.
  - rewrite N.iter_succ, IH. cbn [V2.new_Class snd]. unfold js_incr.
    destruct (Z.ltb_spec (Z.min (idCounter + Z.of_N n) SAFE_LIMIT) SAFE_LIMIT); lia.
Qed.

End Counter.

(** ** Names are cosmetic *)

Section Names.

Context {World InstanceConstructor RightValue : Type}.
Variable instance_name : InstanceConstructor -> string.

Lemma V2_names_cosmetic (c c' : V2.Class World InstanceConstructor) :
  V2.same_but_names c c' ->
  forall (instance : InstanceConstructor) (w : World),
    MaybeError.isError (ret_val (V2.validate instance_name c instance w))
    = MaybeError.isError (ret_val (V2.validate instance_name c' instance w))
    /\ world_after (V2.validate instance_name c instance w)
       = world_after (V2.validate instance_name c' instance w).
Proof.
  revert c'. induction c as [ps l n i IH] using V2_Class_ind.
  intros c' Hsame instance w. inversion Hsame as [ps0 ps' l0 n0 n' i0 i' Hps]; subst.
  assert (Hpre : forall w0,
    existsb MaybeError.isError
      (ret_val (V2.validate_parents instance_name ps instance w0))
    = existsb MaybeError.isError
        (ret_val (V2.validate_parents instance_name ps' instance w0))
    /\ world_after (V2.validate_parents instance_name ps instance w0)
       = world_after (V2.validate_parents instance_name ps' instance w0)).
  { clear Hsame. unfold V2.validate_parents.
    induction Hps as [|p p' ps ps' Hp Hps IHps]; intros w0; [now split|].
    inversion IH as [|? ? IHp IHrest]; subst.
    rewrite !mapM_cons. cbv zeta. cbn [ret_val world_after existsb].
    destruct (IHp p' Hp instance w0) as [Hr Hw]. rewrite Hr, Hw.
    destruct (IHps IHrest (world_after (V2.validate instance_name p' instance w0)))
      as [Hrs Hws].
    now rewrite Hrs, Hws. }
  rewrite !V2_validate_run. cbv zeta. cbn [V2.parents V2.laws].
  rewrite !isError_foldConjoin.
  destruct (Hpre w) as [Hr Hw]. rewrite <- Hr, <- Hw.
  destruct (existsb _ _); cbn [ret_val world_after].
  - now rewrite !isError_conjoin, !orb_true_r.
  - now split.
Qed.

Lemma V1_names_cosmetic (c c' : V1.Class World InstanceConstructor RightValue) :
  V1.same_but_names c c' ->
  forall (instance : InstanceConstructor) (w : World),
    Either.isLeft (ret_val (V1.validate instance_name c instance w))
    = Either.isLeft (ret_val (V1.validate instance_name c' instance w))
    /\ world_after (V1.validate instance_name c instance w)
       = world_after (V1.validate instance_name c' instance w).
Proof.
  revert c'. induction c as [ps l n IH] using V1_Class_ind.
  intros c' Hsame instance w. inversion Hsame as [ps0 ps' l0 n0 n' Hps]; subst.
  assert (Hpre : forall w0,
    existsb Either.isLeft
      (ret_val (V1.validate_parents instance_name ps instance w0))
    = existsb Either.isLeft
        (ret_val (V1.validate_parents instance_name ps' instance w0))
    /\ world_after (V1.validate_parents instance_name ps instance w0)
       = world_after (V1.validate_parents instance_name ps' instance w0)).
  { clear Hsame. unfold V1.validate_parents.
    induction Hps as [|p p' ps ps' Hp Hps IHps]; intros w0; [now split|].
    inversion IH as [|? ? IHp IHrest]; subst.
    rewrite !mapM_cons. cbv zeta. cbn [ret_val world_after existsb].
    destruct (IHp p' Hp instance w0) as [Hr Hw]. rewrite Hr, Hw.
    destruct (IHps IHrest (world_after (V1.validate instance_name p' instance w0)))
      as [Hrs Hws].
    now rewrite Hrs, Hws. }
  rewrite !V1_validate_run. cbv zeta. cbn [V1.parents V1.laws].
  rewrite !truthy_length_filter.
  destruct (Hpre w) as [Hr Hw]. rewrite <- Hr, <- Hw.
  destruct (existsb _ _); cbn [ret_val world_after]; now split.
Qed.

End Names.

(** ** The two revisions side by side *)

Section Revisions.

Context {World InstanceConstructor RightValue : Type}.
Variable instance_name : InstanceConstructor -> string.

Lemma parents_same_outcome
  (ps1 : list (V1.Class World InstanceConstructor RightValue))
  (ps2 : list (V2.Class World InstanceConstructor))
  (instance : InstanceConstructor) :
  Forall2 (fun p1 p2 => forall w,
             Compare.same_run (V1.validate instance_name p1 instance w)
                              (V2.validate instance_name p2 instance w))
          ps1 ps2 ->
  forall w,
    existsb Either.isLeft
      (ret_val (V1.validate_parents instance_name ps1 instance w))
    = existsb MaybeError.isError
        (ret_val (V2.validate_parents instance_name ps2 instance w))
    /\ world_after (V1.validate_parents instance_name ps1 instance w)
       = world_after (V2.validate_parents instance_name ps2 instance w).
Proof.
  unfold V1.validate_parents, V2.validate_parents.
  induction 1 as [|p1 p2 ps1 ps2 Hp _ IH]; intros w; [now split|].
  rewrite !mapM_cons. cbv zeta. cbn [ret_val world_after existsb].
  destruct (Hp w) as [Hr Hw]. unfold Compare.same_outcome in Hr.
  rewrite Hr, Hw.
  destruct (IH (world_after (V2.validate instance_name p2 instance w))) as [Hrs Hws].
  now rewrite Hrs, Hws.
Qed.

End Revisions.

(** * The claims *)

Section Claims.

Context {World InstanceConstructor RightValue : Type}.
Variable instance_name : InstanceConstructor -> string.

Local Notation Class1 := (V1.Class World InstanceConstructor RightValue).
Local Notation Class2 := (V2.Class World InstanceConstructor).

(** C1, amended.  [validate] runs the prerequisites first.  When their
    conjoined result is a failure, it does not call [laws.check]: it
    makes no other call, leaves the world as the prerequisites left it
    and returns their failure with the context message added (in the
    older revision, one [Left] whose text is the context line followed
    by the values of the failed prerequisites).  When their result is a
    success, it calls [laws.check] exactly once, after the
    prerequisites, and returns what that call returns, which is also the
    conjunction of the two results. *)
Theorem validate_checks_laws_only_after_prerequisites_pass
  (c2 : Class2) (c1 : Class1) (instance : InstanceConstructor) (w : World) :
  (let pre := V2.validate_parents instance_name (V2.parents c2) instance w in
   let parentResults := MaybeError.foldConjoin (ret_val pre) in
   let r := V2.validate instance_name c2 instance w in
   if MaybeError.isError parentResults then
     V2.direct_calls (calls r) = calls pre
     /\ V2.check_count (V2.direct_calls (calls r)) = O
     /\ world_after r = world_after pre
     /\ ret_val r
        = MaybeError.conjoin parentResults
            (MaybeError.fail (V2.context_message instance_name instance c2))
   else
     V2.direct_calls (calls r) = (calls pre ++ [V2.CallCheck c2])%list
     /\ V2.check_count (V2.direct_calls (calls r)) = 1%nat
     /\ (ret_val r, world_after r)
        = V2.check (V2.laws c2) instance (world_after pre)
     /\ ret_val r = MaybeError.conjoin parentResults (ret_val r))
  /\
  (let pre := V1.validate_parents instance_name (V1.parents c1) instance w in
   let parentLefts := filter Either.isLeft (ret_val pre) in
   let r := V1.validate instance_name c1 instance w in
   if V1.truthy (List.length parentLefts) then
     V1.direct_calls (calls r) = calls pre
     /\ V1.check_count (V1.direct_calls (calls r)) = O
     /\ world_after r = world_after pre
     /\ ret_val r
        = Either.Left
            (V1.context_message instance_name instance c1 +++ LF +++ LF
             +++ join (LF +++ LF) (Either.leftValues parentLefts))
   else
     V1.direct_calls (calls r) = (calls pre ++ [V1.CallCheck c1])%list
     /\ V1.check_count (V1.direct_calls (calls r)) = 1%nat
     /\ (ret_val r, world_after r)
        = V1.check (V1.laws c1) instance (world_after pre)).
Proof.
  split; cbv zeta.
  - rewrite V2_validate_run. cbv zeta.
    destruct (MaybeError.isError _) eqn:Herr; cbn [ret_val world_after calls V2.direct_calls].
    + repeat split. apply V2_parents_no_check.
    + repeat split.
      * rewrite V2_check_count_app, V2_parents_no_check. reflexivity.
      * now destruct (V2.check _ _ _).
      * destruct (MaybeError.foldConjoin _); [|discriminate Herr].
        now rewrite conjoin_success_l.
  - rewrite V1_validate_run. cbv zeta.
    destruct (V1.truthy _); cbn [ret_val world_after calls V1.direct_calls].
    + repeat split. apply V1_parents_no_check.
    + repeat split.
      * rewrite V1_check_count_app, V1_parents_no_check. reflexivity.
      * now destruct (V1.check _ _ _).
Qed.

(** C2.  A class one of whose prerequisites fails on the candidate fails
    on it too, whatever its own laws say: [P] is any one of the
    prerequisites, validated in the state that the prerequisites before
    it left. *)
Theorem prerequisite_failure_is_not_masked
  (c2 P2 : Class2) (before2 after2 : list Class2)
  (c1 P1 : Class1) (before1 after1 : list Class1)
  (instance : InstanceConstructor) (w : World) :
  (V2.parents c2 = (before2 ++ P2 :: after2)%list ->
   MaybeError.isError
     (ret_val (V2.validate instance_name P2 instance
                 (world_after (V2.validate_parents instance_name before2 instance w))))
   = true ->
   MaybeError.isError (ret_val (V2.validate instance_name c2 instance w)) = true)
  /\
  (V1.parents c1 = (before1 ++ P1 :: after1)%list ->
   Either.isLeft
     (ret_val (V1.validate instance_name P1 instance
                 (world_after (V1.validate_parents instance_name before1 instance w))))
   = true ->
   Either.isLeft (ret_val (V1.validate instance_name c1 instance w)) = true).
Proof.
  split; intros Hparents Hfails.
  - rewrite V2_validate_run. cbv zeta. rewrite Hparents.
    assert (Herr : MaybeError.isError
              (MaybeError.foldConjoin
                 (ret_val (V2.validate_parents instance_name
                             (before2 ++ P2 :: after2) instance w))) = true).
    { rewrite isError_foldConjoin. unfold V2.validate_parents in *.
      rewrite mapM_app. cbv zeta. cbn [ret_val]. rewrite mapM_cons. cbv zeta.
      cbn [ret_val]. rewrite existsb_app. cbn [existsb].
      rewrite Hfails. now rewrite orb_true_r. }
    rewrite Herr. cbn [ret_val]. rewrite isError_conjoin. apply orb_true_r.
  - rewrite V1_validate_run. cbv zeta. rewrite Hparents.
    assert (Herr : V1.truthy (List.length (filter Either.isLeft
                 (ret_val (V1.validate_parents instance_name
                             (before1 ++ P1 :: after1) instance w)))) = true).
    { rewrite truthy_length_filter. unfold V1.validate_parents in *.
      rewrite mapM_app. cbv zeta. cbn [ret_val]. rewrite mapM_cons. cbv zeta.
      cbn [ret_val]. rewrite existsb_app. cbn [existsb].
      rewrite Hfails. now rewrite orb_true_r. }
    rewrite Herr. reflexivity.
Qed.

(** C3, amended.  When the prerequisites fail, the failure that
    [validate] returns ends with (in the older revision: starts with)
    the context message, in which the name of the candidate and the name
    of the class both occur.  When the prerequisites pass, [validate]
    returns the result of [laws.check] as it is, with no message
    added. *)
Theorem failure_context_names_only_failed_prerequisites
  (c2 : Class2) (c1 : Class1) (instance : InstanceConstructor) (w : World) :
  (let pre := V2.validate_parents instance_name (V2.parents c2) instance w in
   let parentResults := MaybeError.foldConjoin (ret_val pre) in
   let r := V2.validate instance_name c2 instance w in
   let context := V2.context_message instance_name instance c2 in
   if MaybeError.isError parentResults then
     ret_val r
     = MaybeError.Failure (MaybeError.messages parentResults ++ [context])
     /\ contains context (instance_name instance) = true
     /\ contains context (V2.name c2) = true
   else
     ret_val r = fst (V2.check (V2.laws c2) instance (world_after pre)))
  /\
  (let pre := V1.validate_parents instance_name (V1.parents c1) instance w in
   let parentLefts := filter Either.isLeft (ret_val pre) in
   let r := V1.validate instance_name c1 instance w in
   let context := V1.context_message instance_name instance c1 in
   if V1.truthy (List.length parentLefts) then
     (exists details, ret_val r = Either.Left (context +++ details)
        /\ contains (context +++ details) (instance_name instance) = true
        /\ contains (context +++ details) (V1.name c1) = true)
   else
     ret_val r = fst (V1.check (V1.laws c1) instance (world_after pre))).
Proof.
  assert (Hname : forall (iname cname : string),
            contains ("Class " +++ iname +++ " fails the prerequisites to be a " +++ cname)
              iname = true
            /\ contains ("Class " +++ iname +++ " fails the prerequisites to be a " +++ cname)
              cname = true).
  { intros iname cname. split.
    - apply contains_append_r, contains_append_l, contains_self.
    - do 3 apply contains_append_r. apply contains_self. }
  split; cbv zeta.
  - rewrite V2_validate_run. cbv zeta.
    destruct (MaybeError.isError _) eqn:Herr; cbn [ret_val]; [|reflexivity].
    split; [|apply Hname].
    rewrite (failure_messages _ Herr) at 1. reflexivity.
  - rewrite V1_validate_run. cbv zeta.
    destruct (V1.truthy _); cbn [ret_val]; [|reflexivity].
    eexists. split; [reflexivity|].
    split; apply contains_append_l, Hname.
Qed.

(** C4.  [validate] calls [validate] on every prerequisite exactly once
    and in the declared order: the classes on which its body calls
    [validate] are the list of its prerequisites.  Each call runs in the
    state the one before left, whether that one failed or not, and all
    the results are combined: the intermediate result is a failure
    exactly when some prerequisite failed, and it carries the messages
    of all the failed prerequisites, in order. *)
Theorem validate_runs_every_prerequisite_in_order
  (c2 : Class2) (c1 : Class1) (instance : InstanceConstructor) (w : World) :
  (let pre := V2.validate_parents instance_name (V2.parents c2) instance w in
   let parentResults := MaybeError.foldConjoin (ret_val pre) in
   let r := V2.validate instance_name c2 instance w in
   V2.validate_callees (V2.direct_calls (calls r)) = V2.parents c2
   /\ V2.threaded instance_name instance (V2.parents c2) w
        (ret_val pre) (world_after pre)
   /\ List.length (ret_val pre) = List.length (V2.parents c2)
   /\ MaybeError.isError parentResults
      = existsb MaybeError.isError (ret_val pre)
   /\ MaybeError.messages parentResults
      = List.concat (map MaybeError.messages (ret_val pre))
   /\ (if MaybeError.isError parentResults then
         ret_val r
         = MaybeError.conjoin parentResults
             (MaybeError.fail (V2.context_message instance_name instance c2))
       else
         ret_val r = fst (V2.check (V2.laws c2) instance (world_after pre))))
  /\
  (let pre := V1.validate_parents instance_name (V1.parents c1) instance w in
   let r := V1.validate instance_name c1 instance w in
   V1.validate_callees (V1.direct_calls (calls r)) = V1.parents c1
   /\ V1.threaded instance_name instance (V1.parents c1) w
        (ret_val pre) (world_after pre)
   /\ List.length (ret_val pre) = List.length (V1.parents c1)
   /\ (if existsb Either.isLeft (ret_val pre) then
         ret_val r
         = Either.Left
             (V1.context_message instance_name instance c1 +++ LF +++ LF
              +++ join (LF +++ LF) (Either.leftValues (ret_val pre)))
       else
         ret_val r = fst (V1.check (V1.laws c1) instance (world_after pre)))).
Proof.
  split; cbv zeta.
  - split; [|split; [|split; [|split; [|split]]]].
    + rewrite V2_validate_run. cbv zeta.
      destruct (MaybeError.isError _); cbn [calls V2.direct_calls].
      * apply V2_parents_callees.
      * rewrite V2_callees_app, V2_parents_callees. cbn. apply app_nil_r.
    + apply V2_parents_threaded.
    + apply mapM_length.
    + apply isError_foldConjoin.
    + apply messages_foldConjoin.
    + rewrite V2_validate_run. cbv zeta.
      now destruct (MaybeError.isError _).
  - split; [|split; [|split]].
    + rewrite V1_validate_run. cbv zeta.
      destruct (V1.truthy _); cbn [calls V1.direct_calls].
      * apply V1_parents_callees.
      * rewrite V1_callees_app, V1_parents_callees. cbn. apply app_nil_r.
    + apply V1_parents_threaded.
    + apply mapM_length.
    + rewrite V1_validate_run. cbv zeta.
      rewrite truthy_length_filter, leftValues_filter.
      now destruct (existsb _ _).
Qed.

End Claims.

Section MoreClaims.

Context {World InstanceConstructor RightValue : Type}.
Variable instance_name : InstanceConstructor -> string.
Variable all1 : list (V1.Laws World InstanceConstructor RightValue)
                -> V1.Laws World InstanceConstructor RightValue.

Local Notation Class1 := (V1.Class World InstanceConstructor RightValue).
Local Notation Class2 := (V2.Class World InstanceConstructor).
Local Notation Options1 := (@V1.Build_ClassOptions World InstanceConstructor RightValue).
Local Notation Options2 := (@V2.Build_ClassOptions World InstanceConstructor).

(** C5.  A class constructed without [laws] has the laws [all()], the
    validator without children, which succeeds on every candidate and
    leaves the world alone; so a class constructed without [laws] and
    without prerequisites validates every candidate.  For the older
    revision, whose [all] is not among the sources, the second half
    rests on what the specification says of [all()]: that it never
    fails. *)
Theorem omitted_laws_default_to_all_which_succeeds
  (name : option string) (idCounter : Z)
  (instance : InstanceConstructor) (w : World) :
  (forall extends,
     V2.laws (fst (V2.new_Class (Options2 name extends None) idCounter))
     = V2.all [])
  /\ V2.check (V2.all []) instance w = (MaybeError.Success, w)
  /\ (forall extends, extends = None \/ extends = Some [] ->
      let r := V2.validate instance_name
                 (fst (V2.new_Class (Options2 name extends None) idCounter))
                 instance w in
      ret_val r = MaybeError.Success /\ world_after r = w)
  /\ (forall extends,
        V1.laws (V1.new_Class all1 (Options1 name extends None)) = all1 [])
  /\ ((forall i w', Either.isLeft (fst (V1.check (all1 []) i w')) = false) ->
      forall extends, extends = None \/ extends = Some [] ->
      Either.isLeft
        (ret_val (V1.validate instance_name
                    (V1.new_Class all1 (Options1 name extends None))
                    instance w))
      = false).
Proof.
  split; [reflexivity|]. split; [reflexivity|].
  split; [|split; [reflexivity|]].
  - intros extends [-> | ->]; rewrite V2_validate_run; now split.
  - intros Hall extends [-> | ->]; rewrite V1_validate_run; cbn; apply Hall.
Qed.

(** C8.  A class constructed without [name] is named "Unnamed".  The
    names play no part in the outcome of a validation: two classes that
    differ only in names (their own or those of the classes they are
    built from) succeed or fail on the same candidates and leave the
    same world. *)
Theorem omitted_name_is_Unnamed_and_names_are_cosmetic :
  (forall extends laws idCounter,
     V2.name (fst (V2.new_Class (Options2 None extends laws) idCounter))
     = "Unnamed"%string)
  /\ (forall extends laws,
        V1.name (V1.new_Class all1 (Options1 None extends laws))
        = "Unnamed"%string)
  /\ (forall (c c' : Class2) instance w,
        V2.same_but_names c c' ->
        MaybeError.isError (ret_val (V2.validate instance_name c instance w))
        = MaybeError.isError (ret_val (V2.validate instance_name c' instance w))
        /\ world_after (V2.validate instance_name c instance w)
           = world_after (V2.validate instance_name c' instance w))
  /\ (forall (c c' : Class1) instance w,
        V1.same_but_names c c' ->
        Either.isLeft (ret_val (V1.validate instance_name c instance w))
        = Either.isLeft (ret_val (V1.validate instance_name c' instance w))
        /\ world_after (V1.validate instance_name c instance w)
           = world_after (V1.validate instance_name c' instance w)).
Proof.
  split; [reflexivity|]. split; [reflexivity|]. split.
  - intros c c' instance w H. now apply V2_names_cosmetic.
  - intros c c' instance w H. now apply V1_names_cosmetic.
Qed.

(** C10.  A class constructed with the empty string as [name] is named
    "Unnamed" too, and the name of a constructed class is never the
    empty string. *)
Theorem stored_name_is_never_empty :
  (forall extends laws idCounter,
     V2.name (fst (V2.new_Class (Options2 (Some ""%string) extends laws) idCounter))
     = "Unnamed"%string)
  /\ (forall extends laws,
        V1.name (V1.new_Class all1 (Options1 (Some ""%string) extends laws))
        = "Unnamed"%string)
  /\ (forall options idCounter,
        V2.name (fst (@V2.new_Class World InstanceConstructor options idCounter))
        <> ""%string)
  /\ (forall options, V1.name (V1.new_Class all1 options) <> ""%string).
Proof.
  assert (H : forall value, js_or value "Unnamed" <> ""%string).
  { intros [[|a s]|]; discriminate. }
  split; [reflexivity|]. split; [reflexivity|].
  split; intros; apply H.
Qed.

End MoreClaims.

Section RevisionsAgree.

Context {World1 World2 InstanceConstructor RightValue : Type}.
Variable instance_name : InstanceConstructor -> string.

Lemma same_outcomes_existsb
  (rs1 : list (V1.ValidationResult RightValue)) (rs2 : list V2.ValidationResult) :
  Forall2 Compare.same_outcome rs1 rs2 ->
  existsb Either.isLeft rs1 = existsb MaybeError.isError rs2.
Proof.
  induction 1 as [|r1 r2 rs1 rs2 Hr _ IH]; [reflexivity|].
  cbn [existsb]. unfold Compare.same_outcome in Hr. now rewrite Hr, IH.
Qed.

(** C9.  The two revisions of [validate] agree on the outcome.  Run the
    older revision on a class in one world and the newer revision on a
    class in another, on the same candidate.  If the results of the
    prerequisites, pairwise, and the results of the two [laws.check]
    classify alike as success or failure, then the older revision
    returns a [Left] exactly when the newer returns an error; and when
    every prerequisite succeeds, each returns exactly what its
    [laws.check] returns.  Nothing is assumed on the worlds the calls
    start in or leave. *)
Theorem revisions_agree_on_outcome
  (c1 : V1.Class World1 InstanceConstructor RightValue)
  (c2 : V2.Class World2 InstanceConstructor)
  (instance : InstanceConstructor) (w1 : World1) (w2 : World2) :
  let pre1 := V1.validate_parents instance_name (V1.parents c1) instance w1 in
  let pre2 := V2.validate_parents instance_name (V2.parents c2) instance w2 in
  let own1 := V1.check (V1.laws c1) instance (world_after pre1) in
  let own2 := V2.check (V2.laws c2) instance (world_after pre2) in
  let r1 := V1.validate instance_name c1 instance w1 in
  let r2 := V2.validate instance_name c2 instance w2 in
  Forall2 Compare.same_outcome (ret_val pre1) (ret_val pre2) ->
  Compare.same_outcome (fst own1) (fst own2) ->
  (Either.isLeft (ret_val r1) = true <-> MaybeError.isError (ret_val r2) = true)
  /\ Compare.same_outcome (ret_val r1) (ret_val r2)
  /\ (existsb Either.isLeft (ret_val pre1) = false ->
      existsb MaybeError.isError (ret_val pre2) = false
      /\ ret_val r1 = fst own1
      /\ ret_val r2 = fst own2).
Proof.
  cbv zeta. intros Hparents Hlaws.
  pose proof (same_outcomes_existsb _ _ Hparents) as Hsome.
  assert (Hsame : Compare.same_outcome
                    (ret_val (V1.validate instance_name c1 instance w1))
                    (ret_val (V2.validate instance_name c2 instance w2))).
  { rewrite V1_validate_run, V2_validate_run. cbv zeta.
    rewrite truthy_length_filter, isError_foldConjoin, <- Hsome.
    destruct (existsb Either.isLeft _); cbn [ret_val]; [|exact Hlaws].
    unfold Compare.same_outcome. cbn [Either.isLeft].
    now rewrite isError_conjoin, orb_true_r. }
  split; [|split; [exact Hsame|]].
  - unfold Compare.same_outcome in Hsame. now rewrite Hsame.
  - intros Hnone. rewrite <- Hsome. split; [exact Hnone|].
    rewrite V1_validate_run, V2_validate_run. cbv zeta.
    rewrite truthy_length_filter, isError_foldConjoin, <- Hsome, Hnone.
    now split.
Qed.

End RevisionsAgree.

(** C6.  [conjoin] is associative, the success is its identity on both
    sides, and two failures conjoin to the failure with the messages of
    the first followed by those of the second: the validation results
    form a monoid. *)
Theorem conjoin_is_a_monoid :
  (forall a b c : MaybeError.t,
     MaybeError.conjoin (MaybeError.conjoin a b) c
     = MaybeError.conjoin a (MaybeError.conjoin b c))
  /\ (forall x : MaybeError.t,
        MaybeError.conjoin MaybeError.Success x = x
        /\ MaybeError.conjoin x MaybeError.Success = x)
  /\ (forall ma mb : list string,
        MaybeError.conjoin (MaybeError.Failure ma) (MaybeError.Failure mb)
        = MaybeError.Failure (ma ++ mb)).
Proof.
  split; [exact conjoin_assoc|]. split; [|reflexivity].
  intros x. split; [apply conjoin_success_l | apply conjoin_success_r].
Qed.

Section Identity.

Context {World InstanceConstructor : Type}.

(** C7, amended.  While the counter stays within the integers that a
    [number] counts exactly, that is up to 2^53, every construction
    takes the current value of the counter as its id and raises the
    counter by one: the ids of classes constructed one after the other
    are strictly increasing, so any two of them have different ids and
    are different classes, whatever their names. *)
Theorem ids_are_fresh_below_the_safe_limit
  (optionss : list (V2.ClassOptions World InstanceConstructor)) (idCounter : Z) :
  idCounter + Z.of_nat (List.length optionss) <= SAFE_LIMIT ->
  let cs := fst (V2.new_Classes optionss idCounter) in
  StronglySorted Z.lt (map V2.id cs)
  /\ snd (V2.new_Classes optionss idCounter)
     = idCounter + Z.of_nat (List.length optionss)
  /\ (forall i j a b,
        nth_error cs i = Some a -> nth_error cs j = Some b -> i <> j ->
        V2.id a <> V2.id b /\ a <> b).
Proof.
  intros Hroom. cbv zeta.
  destruct (new_Classes_ids optionss idCounter Hroom) as (_ & Hsorted & Hend).
  split; [exact Hsorted|]. split; [exact Hend|].
  intros i j a b Ha Hb Hij.
  assert (Hid : V2.id a <> V2.id b).
  { intros Heq. apply Hij.
    pose proof (strictly_sorted_NoDup _ Hsorted) as Hnodup.
    rewrite NoDup_nth_error in Hnodup. apply Hnodup.
    - rewrite length_map. apply nth_error_Some. now rewrite Ha.
    - rewrite !nth_error_map, Ha, Hb. cbn. now rewrite Heq. }
  split; [exact Hid|]. intros ->. now apply Hid.
Qed.

End Identity.

(** * The claims on the sample contracts *)

(** C1, as stated, fails.  [Addable] extends [Eq], and on [Num] the law
    of [Eq] fails and so would the law of [Addable].  Validating
    [Addable] checks the law of [Eq] only: the body makes no call of
    [check], the world has seen one check, and the result carries the
    failure of [Eq] and the context message but not the failure of the
    law of [Addable], so it is not the conjunction of the two
    results. *)
Lemma failed_prerequisite_skips_own_laws :
  let w := 0%nat in
  let r2 := Sample.New.validate Sample.New.addable Sample.Num w in
  let pre2 := V2.validate_parents Sample.candidate_name
                (V2.parents Sample.New.addable) Sample.Num w in
  let own2 := fst (V2.check (V2.laws Sample.New.addable) Sample.Num
                     (world_after pre2)) in
  let r1 := Sample.Old.validate Sample.Old.addable Sample.Num w in
  (own2 = MaybeError.Failure ["commutativity does not hold"%string]
   /\ V2.check_count (V2.direct_calls (calls r2)) = O
   /\ world_after r2 = 1%nat
   /\ ret_val r2
      = MaybeError.Failure
          ["reflexivity does not hold"%string;
           "Class Num fails the prerequisites to be a Addable"%string]
   /\ ret_val r2
      <> MaybeError.conjoin (MaybeError.foldConjoin (ret_val pre2)) own2)
  /\
  (V1.check_count (V1.direct_calls (calls r1)) = O
   /\ world_after r1 = 1%nat
   /\ ret_val r1
      = Either.Left
          ("Class Num fails the prerequisites to be a Addable" +++ LF +++ LF
           +++ "reflexivity does not hold")).
Proof.
  cbv zeta. split.
  - repeat split; try reflexivity. vm_compute. discriminate.
  - repeat split; reflexivity.
Qed.

(** C3, as stated, fails.  [Eq] has no prerequisites and its law fails
    on [Num]: the failure that [validate] returns is the failure of the
    law, and neither the name of the candidate nor the name of the
    class occurs in its message. *)
Lemma own_law_failure_carries_no_context :
  let r2 := ret_val (Sample.New.validate Sample.New.eq Sample.Num 0%nat) in
  let r1 := ret_val (Sample.Old.validate Sample.Old.eq Sample.Num 0%nat) in
  (MaybeError.isError r2 = true
   /\ forall m, In m (MaybeError.messages r2) ->
        contains m (Sample.candidate_name Sample.Num) = false
        /\ contains m (V2.name Sample.New.eq) = false)
  /\
  (exists value, r1 = Either.Left value
     /\ contains value (Sample.candidate_name Sample.Num) = false
     /\ contains value (V1.name Sample.Old.eq) = false).
Proof.
  cbv zeta. split.
  - split; [reflexivity|].
    intros m [<- | []]. split; reflexivity.
  - eexists. split; [reflexivity|]. split; reflexivity.
Qed.

(** C7, as stated, fails.  After 2^53 constructions the counter holds
    2^53, which [idCounter++] leaves unchanged: the next two classes
    constructed get the same id. *)
Lemma ids_repeat_at_the_safe_limit :
  let options := Sample.New.options "Eq" [] Sample.New.holds in
  let idCounter := V2.idCounter_after (2 ^ 53)%N options V2.idCounter_init in
  let a := V2.new_Class options idCounter in
  let b := V2.new_Class options (snd a) in
  V2.id (fst a) = V2.id (fst b) /\ snd b = idCounter.
Proof.
  cbv zeta. rewrite idCounter_after_eq by (now vm_compute).
  split; reflexivity.
Qed.

(** The prerequisite [Eq] of [Monoid] fails on [Num] and the law of
    [Monoid] holds: [Monoid] fails on [Num]. *)
Lemma prerequisite_failure_is_not_masked_witness :
  MaybeError.isError
    (ret_val (Sample.New.validate Sample.New.monoid Sample.Num 0%nat)) = true
  /\ Either.isLeft
       (ret_val (Sample.Old.validate Sample.Old.monoid Sample.Num 0%nat)) = true.
Proof.
  split.
  - apply (proj1 (prerequisite_failure_is_not_masked Sample.candidate_name
                    Sample.New.monoid Sample.New.eq [] []
                    Sample.Old.monoid Sample.Old.eq [] []
                    Sample.Num 0%nat)); reflexivity.
  - apply (proj2 (prerequisite_failure_is_not_masked Sample.candidate_name
                    Sample.New.monoid Sample.New.eq [] []
                    Sample.Old.monoid Sample.Old.eq [] []
                    Sample.Num 0%nat)); reflexivity.
Defined.

(** A class constructed from empty options validates [Vec]. *)
Lemma omitted_laws_default_to_all_which_succeeds_witness :
  (forall i w', Either.isLeft (fst (V1.check (Sample.Old.all []) i w')) = false)
  /\ Either.isLeft
       (ret_val (V1.validate Sample.candidate_name
                   (V1.new_Class Sample.Old.all
                      (V1.Build_ClassOptions None None None))
                   Sample.Vec 5%nat)) = false
  /\ ret_val (V2.validate Sample.candidate_name
                (fst (V2.new_Class (V2.Build_ClassOptions None None None) 0))
                Sample.Vec 5%nat) = MaybeError.Success.
Proof.
  pose proof (omitted_laws_default_to_all_which_succeeds
                Sample.candidate_name Sample.Old.all None 0 Sample.Vec 5%nat)
    as (_ & _ & H2 & _ & H1).
  split; [reflexivity|]. split.
  - apply H1; [reflexivity | now left].
  - apply (H2 None). now left.
Defined.

(** Two classes constructed from the same name, starting from the
    initial counter, have the ids 0 and 1. *)
Lemma ids_are_fresh_below_the_safe_limit_witness :
  let options := Sample.New.options "Eq" [] Sample.New.holds in
  V2.idCounter_init + Z.of_nat (List.length [options; options]) <= SAFE_LIMIT
  /\ StronglySorted Z.lt
       (map V2.id (fst (V2.new_Classes [options; options] V2.idCounter_init))).
Proof.
  cbv zeta. split; [now vm_compute|].
  apply (ids_are_fresh_below_the_safe_limit
           [Sample.New.options "Eq" [] Sample.New.holds;
            Sample.New.options "Eq" [] Sample.New.holds]
           V2.idCounter_init).
  now vm_compute.
Defined.

(** [Monoid] over [Eq], and the same contract under other names. *)
Lemma omitted_name_is_Unnamed_and_names_are_cosmetic_witness :
  let renamed :=
    fst (V2.new_Class
           (Sample.New.options "M"
              [fst (V2.new_Class
                      (Sample.New.options "E" []
                         (Sample.New.broken "reflexivity does not hold")) 8)]
              Sample.New.holds) 9) in
  V2.same_but_names Sample.New.monoid renamed
  /\ MaybeError.isError
       (ret_val (Sample.New.validate Sample.New.monoid Sample.Num 0%nat))
     = MaybeError.isError
         (ret_val (Sample.New.validate renamed Sample.Num 0%nat)).
Proof.
  cbv zeta.
  assert (H : V2.same_but_names Sample.New.monoid
                (fst (V2.new_Class
                        (Sample.New.options "M"
                           [fst (V2.new_Class
                                   (Sample.New.options "E" []
                                      (Sample.New.broken "reflexivity does not hold")) 8)]
                           Sample.New.holds) 9))).
  { apply V2.same_but_names_intro. constructor; [|constructor].
    apply V2.same_but_names_intro. constructor. }
  split; [exact H|].
  apply (proj1 (proj2 (proj2 (omitted_name_is_Unnamed_and_names_are_cosmetic
                                Sample.candidate_name Sample.Old.all)))), H.
Defined.

(** [Monoid] over [Eq] in the one revision, started in one world, and
    in the other, started in another; and [Showable], which has no
    prerequisites, on which both return the result of their laws. *)
Lemma revisions_agree_on_outcome_witness :
  (Either.isLeft
     (ret_val (Sample.Old.validate Sample.Old.monoid Sample.Num 0%nat)) = true
   <-> MaybeError.isError
         (ret_val (Sample.New.validate Sample.New.monoid Sample.Num 7%nat)) = true)
  /\ ret_val (Sample.New.validate Sample.New.showable Sample.Vec 3%nat)
     = fst (V2.check (V2.laws Sample.New.showable) Sample.Vec 3%nat).
Proof.
  split.
  - apply (revisions_agree_on_outcome Sample.candidate_name
             Sample.Old.monoid Sample.New.monoid Sample.Num 0%nat 7%nat).
    + constructor; [reflexivity | constructor].
    + reflexivity.
  - apply (revisions_agree_on_outcome Sample.candidate_name
             Sample.Old.showable Sample.New.showable Sample.Vec 0%nat 3%nat).
    + constructor.
    + reflexivity.
    + reflexivity.
Defined.

(** * Hierarchies *)

Lemma subsequence_refl {A : Type} (l : list A) : subsequence l l.
Proof. induction l; constructor; assumption. Qed.

Lemma subsequence_app {A : Type} (l1 l1' l2 l2' : list A) :
  subsequence l1 l1' -> subsequence l2 l2' ->
  subsequence (l1 ++ l2) (l1' ++ l2').
Proof.
  intros H1 H2. induction H1; simpl; try constructor; assumption.
Qed.

Lemma subsequence_length {A : Type} (l l' : list A) :
  subsequence l l' -> (List.length l <= List.length l')%nat.
Proof. induction 1; simpl; lia. Qed.

Lemma contains_join (separator part : string) (parts : list string) :
  In part parts -> contains (join separator parts) part = true.
Proof.
  unfold join. induction parts as [|x [|y rest] IH]; intros Hin.
  - destruct Hin.
  - destruct Hin as [<- | []]. apply contains_self.
  - change (String.concat separator (x :: y :: rest))
      with (x +++ separator +++ String.concat separator (y :: rest)).
    destruct Hin as [<- | Hin].
    + apply contains_append_l, contains_self.
    + do 2 apply contains_append_r. now apply IH.
Qed.

Lemma leftValues_app {L R : Type} (xs ys : list (Either.t L R)) :
  Either.leftValues (xs ++ ys)
  = (Either.leftValues xs ++ Either.leftValues ys)%list.
Proof.
  induction xs as [|[v|v] xs IH]; simpl; now rewrite ?IH.
Qed.

Lemma leftValues_middle {L R : Type} (xs ys : list (Either.t L R)) (v : L) :
  In v (Either.leftValues (xs ++ Either.Left v :: ys)).
Proof.
  rewrite leftValues_app. cbn [Either.leftValues].
  apply in_or_app. right. now left.
Qed.

Section NewHierarchy.

Context {World InstanceConstructor : Type}.
Variable instance_name : InstanceConstructor -> string.

Local Notation Class := (V2.Class World InstanceConstructor).
Local Notation Laws := (V2.Laws World InstanceConstructor).
Local Notation validate := (V2.validate instance_name).
Local Notation validate_parents := (V2.validate_parents instance_name).

Lemma new_passes_app (ls1 ls2 : list Laws) (instance : InstanceConstructor) (w : World) :
  Hierarchy.New.passes (ls1 ++ ls2) instance w
  = match Hierarchy.New.passes ls1 instance w with
    | None => None
    | Some w1 => Hierarchy.New.passes ls2 instance w1
    end.
Proof.
  revert w; induction ls1 as [|l ls1 IH]; intros w; [reflexivity|].
  cbn [app Hierarchy.New.passes].
  destruct (V2.check l instance w) as [r w'].
  destruct (MaybeError.isError r); [reflexivity | apply IH].
Qed.

Lemma new_validated_preorder (c : Class) :
  forall (instance : InstanceConstructor) (w : World),
    flat_map Hierarchy.New.validated (calls (validate c instance w))
    = Hierarchy.New.preorder c.
Proof.
  induction c as [ps l n i IH] using V2_Class_ind. intros instance w.
  assert (Hps : forall w0,
            flat_map Hierarchy.New.validated
              (calls (validate_parents ps instance w0))
            = flat_map Hierarchy.New.preorder ps).
  { unfold V2.validate_parents.
    induction IH as [|p ps Hp _ IHps]; intros w0; [reflexivity|].
    rewrite mapM_cons. cbv zeta. cbn [calls].
    rewrite flat_map_app, Hp, IHps. reflexivity. }
  rewrite V2_validate_run. cbv zeta. cbn [V2.parents].
  destruct (MaybeError.isError _);
    cbn [calls flat_map Hierarchy.New.validated Hierarchy.New.preorder V2.parents];
    rewrite ?flat_map_app, Hps; cbn [flat_map Hierarchy.New.validated];
    now rewrite ?app_nil_r.
Qed.

Lemma new_passes_postorder (c : Class) :
  forall (instance : InstanceConstructor) (w : World),
    Hierarchy.New.passes (map V2.laws (Hierarchy.New.postorder c)) instance w
    = if MaybeError.isError (ret_val (validate c instance w))
      then None
      else Some (world_after (validate c instance w)).
Proof.
  induction c as [ps l n i IH] using V2_Class_ind. intros instance w.
  assert (Hps : forall w0,
            Hierarchy.New.passes
              (map V2.laws (flat_map Hierarchy.New.postorder ps)) instance w0
            = if existsb MaybeError.isError
                   (ret_val (validate_parents ps instance w0))
              then None
              else Some (world_after (validate_parents ps instance w0))).
  { unfold V2.validate_parents.
    induction IH as [|p ps Hp _ IHps]; intros w0; [reflexivity|].
    rewrite mapM_cons. cbv zeta. cbn [ret_val world_after existsb flat_map].
    rewrite map_app, new_passes_app, Hp.
    destruct (MaybeError.isError (ret_val (validate p instance w0)));
      [reflexivity | apply IHps]. }
  cbn [Hierarchy.New.postorder V2.parents].
  rewrite map_app, new_passes_app, Hps.
  rewrite V2_validate_run. cbv zeta. cbn [V2.parents V2.laws].
  rewrite isError_foldConjoin.
  destruct (existsb _ _); cbn [ret_val world_after].
  - now rewrite isError_conjoin, orb_true_r.
  - cbn [map Hierarchy.New.passes V2.laws].
    destruct (V2.check l instance _) as [r w']. cbn [fst snd].
    now destruct (MaybeError.isError r).
Qed.

Lemma new_checked_postorder (c : Class) :
  forall (instance : InstanceConstructor) (w : World),
    subsequence
      (flat_map Hierarchy.New.checked (calls (validate c instance w)))
      (Hierarchy.New.postorder c)
    /\ (MaybeError.isError (ret_val (validate c instance w)) = false ->
        flat_map Hierarchy.New.checked (calls (validate c instance w))
        = Hierarchy.New.postorder c).
Proof.
  induction c as [ps l n i IH] using V2_Class_ind. intros instance w.
  assert (Hps : forall w0,
            subsequence
              (flat_map Hierarchy.New.checked
                 (calls (validate_parents ps instance w0)))
              (flat_map Hierarchy.New.postorder ps)
            /\ (existsb MaybeError.isError
                  (ret_val (validate_parents ps instance w0)) = false ->
                flat_map Hierarchy.New.checked
                  (calls (validate_parents ps instance w0))
                = flat_map Hierarchy.New.postorder ps)).
  { unfold V2.validate_parents.
    induction IH as [|p ps Hp _ IHps]; intros w0; [split; [constructor | reflexivity]|].
    rewrite mapM_cons. cbv zeta. cbn [calls ret_val existsb flat_map].
    rewrite flat_map_app.
    destruct (Hp instance w0) as [Hsub Hall].
    destruct (IHps (world_after (validate p instance w0))) as [Hsubs Halls].
    split; [now apply subsequence_app|].
    intros Hok. apply orb_false_iff in Hok as [Hok1 Hok2].
    now rewrite Hall, Halls. }
  cbn [Hierarchy.New.postorder V2.parents].
  rewrite V2_validate_run. cbv zeta. cbn [V2.parents V2.laws].
  rewrite isError_foldConjoin.
  destruct (Hps w) as [Hsub Hall].
  destruct (existsb _ _); cbn [ret_val calls flat_map Hierarchy.New.checked];
    rewrite app_nil_r.
  - split.
    + rewrite <- (app_nil_r (flat_map _ (calls _))).
      apply subsequence_app; [exact Hsub | repeat constructor].
    + rewrite isError_conjoin, orb_true_r. discriminate.
  - rewrite flat_map_app. cbn [flat_map Hierarchy.New.checked app].
    split.
    + apply subsequence_app; [exact Hsub | apply subsequence_refl].
    + intros _. now rewrite Hall.
Qed.

End NewHierarchy.

Section OldHierarchy.

Context {World InstanceConstructor RightValue : Type}.
Variable instance_name : InstanceConstructor -> string.

Local Notation Class := (V1.Class World InstanceConstructor RightValue).
Local Notation Laws := (V1.Laws World InstanceConstructor RightValue).
Local Notation validate := (V1.validate instance_name).
Local Notation validate_parents := (V1.validate_parents instance_name).

Lemma old_passes_app (ls1 ls2 : list Laws) (instance : InstanceConstructor) (w : World) :
  Hierarchy.Old.passes (ls1 ++ ls2) instance w
  = match Hierarchy.Old.passes ls1 instance w with
    | None => None
    | Some w1 => Hierarchy.Old.passes ls2 instance w1
    end.
Proof.
  revert w; induction ls1 as [|l ls1 IH]; intros w; [reflexivity|].
  cbn [app Hierarchy.Old.passes].
  destruct (V1.check l instance w) as [r w'].
  destruct (Either.isLeft r); [reflexivity | apply IH].
Qed.

Lemma old_validated_preorder (c : Class) :
  forall (instance : InstanceConstructor) (w : World),
    flat_map Hierarchy.Old.validated (calls (validate c instance w))
    = Hierarchy.Old.preorder c.
Proof.
  induction c as [ps l n IH] using V1_Class_ind. intros instance w.
  assert (Hps : forall w0,
            flat_map Hierarchy.Old.validated
              (calls (validate_parents ps instance w0))
            = flat_map Hierarchy.Old.preorder ps).
  { unfold V1.validate_parents.
    induction IH as [|p ps Hp _ IHps]; intros w0; [reflexivity|].
    rewrite mapM_cons. cbv zeta. cbn [calls].
    rewrite flat_map_app, Hp, IHps. reflexivity. }
  rewrite V1_validate_run. cbv zeta. cbn [V1.parents].
  destruct (V1.truthy _);
    cbn [calls flat_map Hierarchy.Old.validated Hierarchy.Old.preorder V1.parents];
    rewrite ?flat_map_app, Hps; cbn [flat_map Hierarchy.Old.validated];
    now rewrite ?app_nil_r.
Qed.

Lemma old_passes_postorder (c : Class) :
  forall (instance : InstanceConstructor) (w : World),
    Hierarchy.Old.passes (map V1.laws (Hierarchy.Old.postorder c)) instance w
    = if Either.isLeft (ret_val (validate c instance w))
      then None
      else Some (world_after (validate c instance w)).
Proof.
  induction c as [ps l n IH] using V1_Class_ind. intros instance w.
  assert (Hps : forall w0,
            Hierarchy.Old.passes
              (map V1.laws (flat_map Hierarchy.Old.postorder ps)) instance w0
            = if existsb Either.isLeft
                   (ret_val (validate_parents ps instance w0))
              then None
              else Some (world_after (validate_parents ps instance w0))).
  { unfold V1.validate_parents.
    induction IH as [|p ps Hp _ IHps]; intros w0; [reflexivity|].
    rewrite mapM_cons. cbv zeta. cbn [ret_val world_after existsb flat_map].
    rewrite map_app, old_passes_app, Hp.
    destruct (Either.isLeft (ret_val (validate p instance w0)));
      [reflexivity | apply IHps]. }
  cbn [Hierarchy.Old.postorder V1.parents].
  rewrite map_app, old_passes_app, Hps.
  rewrite V1_validate_run. cbv zeta. cbn [V1.parents V1.laws].
  rewrite truthy_length_filter.
  destruct (existsb _ _); cbn [ret_val world_after]; [reflexivity|].
  cbn [map Hierarchy.Old.passes V1.laws].
  destruct (V1.check l instance _) as [r w']. cbn [fst snd].
  now destruct (Either.isLeft r).
Qed.

Lemma old_checked_postorder (c : Class) :
  forall (instance : InstanceConstructor) (w : World),
    subsequence
      (flat_map Hierarchy.Old.checked (calls (validate c instance w)))
      (Hierarchy.Old.postorder c)
    /\ (Either.isLeft (ret_val (validate c instance w)) = false ->
        flat_map Hierarchy.Old.checked (calls (validate c instance w))
        = Hierarchy.Old.postorder c).
Proof.
  induction c as [ps l n IH] using V1_Class_ind. intros instance w.
  assert (Hps : forall w0,
            subsequence
              (flat_map Hierarchy.Old.checked
                 (calls (validate_parents ps instance w0)))
              (flat_map Hierarchy.Old.postorder ps)
            /\ (existsb Either.isLeft
                  (ret_val (validate_parents ps instance w0)) = false ->
                flat_map Hierarchy.Old.checked
                  (calls (validate_parents ps instance w0))
                = flat_map Hierarchy.Old.postorder ps)).
  { unfold V1.validate_parents.
    induction IH as [|p ps Hp _ IHps]; intros w0; [split; [constructor | reflexivity]|].
    rewrite mapM_cons. cbv zeta. cbn [calls ret_val existsb flat_map].
    rewrite flat_map_app.
    destruct (Hp instance w0) as [Hsub Hall].
    destruct (IHps (world_after (validate p instance w0))) as [Hsubs Halls].
    split; [now apply subsequence_app|].
    intros Hok. apply orb_false_iff in Hok as [Hok1 Hok2].
    now rewrite Hall, Halls. }
  cbn [Hierarchy.Old.postorder V1.parents].
  rewrite V1_validate_run. cbv zeta. cbn [V1.parents V1.laws].
  rewrite truthy_length_filter.
  destruct (Hps w) as [Hsub Hall].
  destruct (existsb _ _); cbn [ret_val calls flat_map Hierarchy.Old.checked];
    rewrite app_nil_r.
  - split.
    + rewrite <- (app_nil_r (flat_map _ (calls _))).
      apply subsequence_app; [exact Hsub | repeat constructor].
    + discriminate.
  - rewrite flat_map_app. cbn [flat_map Hierarchy.Old.checked app].
    split.
    + apply subsequence_app; [exact Hsub | apply subsequence_refl].
    + intros _. now rewrite Hall.
Qed.

End OldHierarchy.

Section Frames.

Context {World InstanceConstructor RightValue : Type}.
Variable instance_name : InstanceConstructor -> string.
Variable R : World -> World -> Prop.
Hypothesis R_refl : forall w, R w w.
Hypothesis R_trans : forall a b c, R a b -> R b c -> R a c.

Lemma new_frame (c : V2.Class World InstanceConstructor)
  (instance : InstanceConstructor) :
  Forall (fun k => forall w, R w (snd (V2.check (V2.laws k) instance w)))
         (Hierarchy.New.preorder c) ->
  forall w, R w (world_after (V2.validate instance_name c instance w)).
Proof.
  induction c as [ps l n i IH] using V2_Class_ind.
  cbn [Hierarchy.New.preorder V2.parents]. intros Hall w.
  inversion Hall as [|? ? Hc Hps]; subst. cbn [V2.laws] in Hc.
  assert (Hpre : forall w0,
            R w0 (world_after (V2.validate_parents instance_name ps instance w0))).
  { clear Hall Hc. unfold V2.validate_parents.
    induction IH as [|p ps Hp _ IHps]; intros w0; [apply R_refl|].
    cbn [flat_map] in Hps. apply Forall_app in Hps as [Hp' Hps'].
    rewrite mapM_cons. cbv zeta. cbn [world_after].
    eapply R_trans; [apply (Hp Hp' w0) | apply (IHps Hps')]. }
  rewrite V2_validate_run. cbv zeta. cbn [V2.parents V2.laws].
  destruct (MaybeError.isError _); cbn [world_after]; [apply Hpre|].
  eapply R_trans; [apply Hpre | apply Hc].
Qed.

Lemma old_frame (c : V1.Class World InstanceConstructor RightValue)
  (instance : InstanceConstructor) :
  Forall (fun k => forall w, R w (snd (V1.check (V1.laws k) instance w)))
         (Hierarchy.Old.preorder c) ->
  forall w, R w (world_after (V1.validate instance_name c instance w)).
Proof.
  induction c as [ps l n IH] using V1_Class_ind.
  cbn [Hierarchy.Old.preorder V1.parents]. intros Hall w.
  inversion Hall as [|? ? Hc Hps]; subst. cbn [V1.laws] in Hc.
  assert (Hpre : forall w0,
            R w0 (world_after (V1.validate_parents instance_name ps instance w0))).
  { clear Hall Hc. unfold V1.validate_parents.
    induction IH as [|p ps Hp _ IHps]; intros w0; [apply R_refl|].
    cbn [flat_map] in Hps. apply Forall_app in Hps as [Hp' Hps'].
    rewrite mapM_cons. cbv zeta. cbn [world_after].
    eapply R_trans; [apply (Hp Hp' w0) | apply (IHps Hps')]. }
  rewrite V1_validate_run. cbv zeta. cbn [V1.parents V1.laws].
  destruct (V1.truthy _); cbn [world_after]; [apply Hpre|].
  eapply R_trans; [apply Hpre | apply Hc].
Qed.

End Frames.

Section WholeHierarchies.

Context {World InstanceConstructor RightValue : Type}.
Variable instance_name : InstanceConstructor -> string.

(** X8.  The two revisions agree on whole hierarchies: when a class of
    the older revision and one of the newer have prerequisite trees of
    the same shape whose laws, place by place, have the same outcome
    and the same effect on the candidate, [validate] succeeds or fails
    alike in both and leaves the same world. *)
Theorem corresponding_hierarchies_agree
  (c1 : V1.Class World InstanceConstructor RightValue) :
  forall (c2 : V2.Class World InstanceConstructor) (instance : InstanceConstructor),
    Hierarchy.corresponds instance c1 c2 ->
    forall w,
      Compare.same_run (V1.validate instance_name c1 instance w)
                       (V2.validate instance_name c2 instance w).
Proof.
  induction c1 as [ps1 l1 n1 IH] using V1_Class_ind.
  intros c2 instance Hc w.
  inversion Hc as [? ? ? ps2 l2 n2 i2 Hps Hlaws]; subst.
  assert (Hparents :
    Forall2 (fun p1 p2 => forall w0,
               Compare.same_run (V1.validate instance_name p1 instance w0)
                                (V2.validate instance_name p2 instance w0))
            ps1 ps2).
  { clear Hc Hlaws. induction Hps as [|p1 p2 ps1 ps2 Hp Hps IHps]; constructor.
    - inversion IH as [|? ? Hp1 _]; subst. intros w0. now apply Hp1.
    - inversion IH as [|? ? _ Hrest]; subst. now apply IHps. }
  destruct (parents_same_outcome instance_name _ _ instance Hparents w) as [Hr Hw].
  rewrite V1_validate_run, V2_validate_run. cbv zeta.
  cbn [V1.parents V1.laws V2.parents V2.laws].
  rewrite truthy_length_filter, isError_foldConjoin, <- Hr, <- Hw.
  destruct (existsb Either.isLeft _).
  - split; [|reflexivity].
    unfold Compare.same_outcome. cbn [ret_val Either.isLeft].
    now rewrite isError_conjoin, orb_true_r.
  - apply Hlaws.
Qed.

End WholeHierarchies.

Section HierarchyProperties.

Context {World InstanceConstructor RightValue : Type}.
Variable instance_name : InstanceConstructor -> string.

Local Notation Class1 := (V1.Class World InstanceConstructor RightValue).
Local Notation Class2 := (V2.Class World InstanceConstructor).

(** X1.  Whatever the candidate, the world and the outcome, [validate]
    is called on the whole prerequisite tree of the class, every class
    before its prerequisites and the prerequisites from first to last: a
    failure prunes nothing, and a class reached along two paths is
    validated once for each. *)
Theorem validate_visits_the_hierarchy_in_preorder
  (c2 : Class2) (c1 : Class1) (instance : InstanceConstructor) (w : World) :
  flat_map Hierarchy.New.validated
    (calls (V2.validate instance_name c2 instance w))
  = Hierarchy.New.preorder c2
  /\ flat_map Hierarchy.Old.validated
       (calls (V1.validate instance_name c1 instance w))
     = Hierarchy.Old.preorder c1.
Proof.
  split; [apply new_validated_preorder | apply old_validated_preorder].
Qed.

(** X2.  A candidate passes a class exactly when it passes the laws of
    every class of the prerequisite tree, checked one after the other
    with every class after its prerequisites; and then [validate]
    leaves the world that those checks leave. *)
Theorem validation_passes_iff_all_laws_pass_in_postorder
  (c2 : Class2) (c1 : Class1) (instance : InstanceConstructor) (w : World) :
  Hierarchy.New.passes (map V2.laws (Hierarchy.New.postorder c2)) instance w
  = (if MaybeError.isError (ret_val (V2.validate instance_name c2 instance w))
     then None
     else Some (world_after (V2.validate instance_name c2 instance w)))
  /\ Hierarchy.Old.passes (map V1.laws (Hierarchy.Old.postorder c1)) instance w
     = (if Either.isLeft (ret_val (V1.validate instance_name c1 instance w))
        then None
        else Some (world_after (V1.validate instance_name c1 instance w))).
Proof.
  split; [apply new_passes_postorder | apply old_passes_postorder].
Qed.

(** X3.  The classes whose laws one call of [validate] checks, in the
    order of the checks, are picked in order from the prerequisite tree
    listed with every class after its prerequisites: the laws of a
    class are never checked before those of its prerequisites, and never
    twice in one visit.  When the validation succeeds they are the whole
    list. *)
Theorem laws_are_checked_in_postorder
  (c2 : Class2) (c1 : Class1) (instance : InstanceConstructor) (w : World) :
  (let r := V2.validate instance_name c2 instance w in
   if MaybeError.isError (ret_val r) then
     subsequence (flat_map Hierarchy.New.checked (calls r))
                 (Hierarchy.New.postorder c2)
   else
     flat_map Hierarchy.New.checked (calls r) = Hierarchy.New.postorder c2)
  /\
  (let r := V1.validate instance_name c1 instance w in
   if Either.isLeft (ret_val r) then
     subsequence (flat_map Hierarchy.Old.checked (calls r))
                 (Hierarchy.Old.postorder c1)
   else
     flat_map Hierarchy.Old.checked (calls r) = Hierarchy.Old.postorder c1).
Proof.
  split; cbv zeta.
  - destruct (new_checked_postorder instance_name c2 instance w) as [Hsub Hall].
    destruct (MaybeError.isError _); [exact Hsub | now apply Hall].
  - destruct (old_checked_postorder instance_name c1 instance w) as [Hsub Hall].
    destruct (Either.isLeft _); [exact Hsub | now apply Hall].
Qed.

(** X4.  [validate] changes the world only through the calls of
    [laws.check] of the classes of the prerequisite tree: a relation
    between the world before and the world after that is reflexive and
    transitive and that every one of those checks respects, is respected
    by [validate]. *)
Theorem validate_has_no_effect_of_its_own
  (R : World -> World -> Prop)
  (c2 : Class2) (c1 : Class1) (instance : InstanceConstructor) :
  (forall w, R w w) ->
  (forall a b c, R a b -> R b c -> R a c) ->
  (Forall (fun k => forall w, R w (snd (V2.check (V2.laws k) instance w)))
          (Hierarchy.New.preorder c2) ->
   forall w, R w (world_after (V2.validate instance_name c2 instance w)))
  /\
  (Forall (fun k => forall w, R w (snd (V1.check (V1.laws k) instance w)))
          (Hierarchy.Old.preorder c1) ->
   forall w, R w (world_after (V1.validate instance_name c1 instance w))).
Proof.
  intros Hrefl Htrans. split; intros Hall w.
  - now apply new_frame.
  - now apply old_frame.
Qed.

(** X5.  No diagnostic of a failed prerequisite is dropped.  In the
    newer revision every message of the failure of a prerequisite is a
    message of the failure of the class; in the older revision the
    value of the [Left] of a prerequisite occurs in the value of the
    [Left] of the class. *)
Theorem prerequisite_diagnostics_are_kept
  (c2 P2 : Class2) (before2 after2 : list Class2)
  (c1 P1 : Class1) (before1 after1 : list Class1)
  (instance : InstanceConstructor) (w : World) (m v : string) :
  (V2.parents c2 = (before2 ++ P2 :: after2)%list ->
   In m (MaybeError.messages
           (ret_val (V2.validate instance_name P2 instance
                       (world_after
                          (V2.validate_parents instance_name before2 instance w))))) ->
   In m (MaybeError.messages (ret_val (V2.validate instance_name c2 instance w))))
  /\
  (V1.parents c1 = (before1 ++ P1 :: after1)%list ->
   ret_val (V1.validate instance_name P1 instance
              (world_after (V1.validate_parents instance_name before1 instance w)))
   = Either.Left v ->
   exists value,
     ret_val (V1.validate instance_name c1 instance w) = Either.Left value
     /\ contains value v = true).
Proof.
  split; intros Hparents Hfails.
  - rewrite V2_validate_run. cbv zeta. rewrite Hparents.
    set (pre := V2.validate_parents instance_name (before2 ++ P2 :: after2) instance w).
    assert (Hin : In m (MaybeError.messages (MaybeError.foldConjoin (ret_val pre)))).
    { rewrite messages_foldConjoin. subst pre. unfold V2.validate_parents in *.
      rewrite mapM_app. cbv zeta. cbn [ret_val]. rewrite mapM_cons. cbv zeta.
      cbn [ret_val]. rewrite map_app, concat_app. cbn [map List.concat].
      rewrite !in_app_iff. right. left. exact Hfails. }
    destruct (MaybeError.foldConjoin (ret_val pre)) as [|ms] eqn:Hfold;
      [destruct Hin|].
    cbn [MaybeError.isError ret_val]. cbn. apply in_or_app. now left.
  - rewrite V1_validate_run. cbv zeta. rewrite Hparents.
    set (pre := V1.validate_parents instance_name (before1 ++ P1 :: after1) instance w).
    assert (Hin : In v (Either.leftValues (ret_val pre))
                  /\ existsb Either.isLeft (ret_val pre) = true).
    { subst pre. unfold V1.validate_parents in *.
      rewrite mapM_app. cbv zeta. cbn [ret_val]. rewrite mapM_cons. cbv zeta.
      cbn [ret_val]. rewrite Hfails. split.
      - apply leftValues_middle.
      - rewrite existsb_app. cbn [existsb Either.isLeft]. apply orb_true_r. }
    destruct Hin as [Hin Hsome].
    rewrite truthy_length_filter, Hsome, leftValues_filter. cbn [ret_val].
    eexists. split; [reflexivity|].
    do 3 apply contains_append_r. now apply contains_join.
Qed.

(** X6.  [validate] makes no failure without messages: when the laws of
    a class never return one, neither does [validate], whatever the
    prerequisites return. *)
Theorem validate_makes_no_empty_failure
  (c : Class2) (instance : InstanceConstructor) (w : World) :
  (forall w', fst (V2.check (V2.laws c) instance w') <> MaybeError.Failure []) ->
  ret_val (V2.validate instance_name c instance w) <> MaybeError.Failure [].
Proof.
  intros Hlaws. rewrite V2_validate_run. cbv zeta.
  destruct (MaybeError.foldConjoin _) as [|ms]; cbn [MaybeError.isError ret_val].
  - apply Hlaws.
  - cbn. intros H. injection H as H. now apply app_eq_nil in H as [_ H].
Qed.

(** X9.  Only the laws of the hierarchy and their order decide the
    outcome: two classes whose prerequisite trees, listed with every
    class after its prerequisites, carry the same laws, succeed or fail
    on the same candidates, and where they succeed they leave the same
    world; the shape of the hierarchy, the names and the ids do not
    matter. *)
Theorem hierarchies_with_the_same_laws_agree
  (c2 c2' : Class2) (c1 c1' : Class1) (instance : InstanceConstructor) (w : World) :
  (map V2.laws (Hierarchy.New.postorder c2)
   = map V2.laws (Hierarchy.New.postorder c2') ->
   let r := V2.validate instance_name c2 instance w in
   let r' := V2.validate instance_name c2' instance w in
   MaybeError.isError (ret_val r) = MaybeError.isError (ret_val r')
   /\ (MaybeError.isError (ret_val r) = false -> world_after r = world_after r'))
  /\
  (map V1.laws (Hierarchy.Old.postorder c1)
   = map V1.laws (Hierarchy.Old.postorder c1') ->
   let r := V1.validate instance_name c1 instance w in
   let r' := V1.validate instance_name c1' instance w in
   Either.isLeft (ret_val r) = Either.isLeft (ret_val r')
   /\ (Either.isLeft (ret_val r) = false -> world_after r = world_after r')).
Proof.
  split; intros Hlaws; cbv zeta.
  - pose proof (new_passes_postorder instance_name c2 instance w) as H.
    pose proof (new_passes_postorder instance_name c2' instance w) as H'.
    rewrite Hlaws, H' in H.
    destruct (MaybeError.isError (ret_val (V2.validate instance_name c2 instance w)));
      destruct (MaybeError.isError (ret_val (V2.validate instance_name c2' instance w)));
      try discriminate H; split; try reflexivity; try discriminate.
    intros _. now injection H.
  - pose proof (old_passes_postorder instance_name c1 instance w) as H.
    pose proof (old_passes_postorder instance_name c1' instance w) as H'.
    rewrite Hlaws, H' in H.
    destruct (Either.isLeft (ret_val (V1.validate instance_name c1 instance w)));
      destruct (Either.isLeft (ret_val (V1.validate instance_name c1' instance w)));
      try discriminate H; split; try reflexivity; try discriminate.
    intros _. now injection H.
Qed.

End HierarchyProperties.

Section CounterValues.

Context {World InstanceConstructor : Type}.

(** X7.  Starting from a counter that is at most 2^53, the class
    constructed in place [k] of a sequence of constructions has the id
    [min (idCounter + k) 2^53], and the counter ends at
    [min (idCounter + n) 2^53] after [n] constructions: ids never
    decrease, and there is one class for every [options]. *)
Theorem ids_count_up_to_the_safe_limit
  (optionss : list (V2.ClassOptions World InstanceConstructor)) (idCounter : Z) :
  idCounter <= SAFE_LIMIT ->
  map V2.id (fst (V2.new_Classes optionss idCounter))
  = map (fun k => Z.min (idCounter + Z.of_nat k) SAFE_LIMIT)
        (seq 0 (List.length optionss))
  /\ snd (V2.new_Classes optionss idCounter)
     = Z.min (idCounter + Z.of_nat (List.length optionss)) SAFE_LIMIT.
Proof.
  revert idCounter; induction optionss as [|options rest IH]; intros idCounter Hle.
  - cbn [V2.new_Classes fst snd List.length seq map]. split; [reflexivity | lia].
  - cbn [V2.new_Classes List.length seq map].
    destruct (V2.new_Class options idCounter) as [c idCounter1] eqn:Hnew.
    pose proof (new_Class_id options idCounter) as [Hid Hnext].
    rewrite Hnew in Hid, Hnext. cbn [fst snd] in Hid, Hnext.
    assert (Hle1 : idCounter1 <= SAFE_LIMIT).
    { rewrite Hnext. unfold js_incr.
      destruct (Z.ltb_spec idCounter SAFE_LIMIT); lia. }
    assert (Hmin : idCounter1 = Z.min (idCounter + 1) SAFE_LIMIT).
    { rewrite Hnext. unfold js_incr.
      destruct (Z.ltb_spec idCounter SAFE_LIMIT); lia. }
    destruct (IH idCounter1 Hle1) as [Hids Hend].
    destruct (V2.new_Classes rest idCounter1) as [cs idCounter2].
    cbn [fst snd map] in *. split.
    + rewrite Hid, Hids, <- seq_shift, map_map. f_equal; [lia|].
      apply map_ext. intros k. lia.
    + rewrite Hend. lia.
Qed.

End CounterValues.

(** * The hierarchy properties on the sample contracts *)

(** Every law of the samples adds one to the world, which therefore
    never goes down, here over [Diamond]. *)
Lemma validate_has_no_effect_of_its_own_witness :
  (6 <= world_after (Sample.New.validate Shapes.diamond Sample.Num 6%nat))%nat
  /\ (6 <= world_after (Sample.Old.validate Sample.Old.addable Sample.Num 6%nat))%nat.
Proof.
  destruct (validate_has_no_effect_of_its_own Sample.candidate_name le
              Shapes.diamond Sample.Old.addable Sample.Num) as [H2 H1].
  - intros w. apply le_n.
  - intros a b c Hab Hbc. exact (Nat.le_trans a b c Hab Hbc).
  - split; [apply H2 | apply H1];
      repeat (apply Forall_cons || apply Forall_nil);
      intros w; apply le_S, le_n.
Defined.

(** The message of [Eq] is among the messages of [Monoid]. *)
Lemma prerequisite_diagnostics_are_kept_witness :
  In "reflexivity does not hold"%string
     (MaybeError.messages
        (ret_val (Sample.New.validate Sample.New.monoid Sample.Num 0%nat)))
  /\ exists value,
       ret_val (Sample.Old.validate Sample.Old.monoid Sample.Num 0%nat)
       = Either.Left value
       /\ contains value "reflexivity does not hold" = true.
Proof.
  split.
  - apply (proj1 (prerequisite_diagnostics_are_kept Sample.candidate_name
                    Sample.New.monoid Sample.New.eq [] []
                    Sample.Old.monoid Sample.Old.eq [] []
                    Sample.Num 0%nat
                    "reflexivity does not hold" "reflexivity does not hold"));
      [reflexivity | left; reflexivity].
  - apply (proj2 (prerequisite_diagnostics_are_kept Sample.candidate_name
                    Sample.New.monoid Sample.New.eq [] []
                    Sample.Old.monoid Sample.Old.eq [] []
                    Sample.Num 0%nat
                    "reflexivity does not hold" "reflexivity does not hold"));
      reflexivity.
Defined.

(** The law of [Addable] fails with one message. *)
Lemma validate_makes_no_empty_failure_witness :
  ret_val (Sample.New.validate Sample.New.addable Sample.Num 0%nat)
  <> MaybeError.Failure [].
Proof.
  apply (validate_makes_no_empty_failure Sample.candidate_name
           Sample.New.addable Sample.Num 0%nat).
  intros w'. discriminate.
Defined.

(** Three constructions that start one below the limit. *)
Lemma ids_count_up_to_the_safe_limit_witness :
  let options := Sample.New.options "Eq" [] Sample.New.holds in
  map V2.id (fst (V2.new_Classes [options; options; options] (SAFE_LIMIT - 1)))
  = [SAFE_LIMIT - 1; SAFE_LIMIT; SAFE_LIMIT].
Proof.
  cbv zeta.
  refine (proj1 (ids_count_up_to_the_safe_limit
                   [Sample.New.options "Eq" [] Sample.New.holds;
                    Sample.New.options "Eq" [] Sample.New.holds;
                    Sample.New.options "Eq" [] Sample.New.holds]
                   (SAFE_LIMIT - 1) _)).
  now vm_compute.
Defined.

(** [Ring] over [Group] and [Eq], in the one revision and in the
    other. *)
Lemma corresponding_hierarchies_agree_witness :
  Compare.same_run
    (Sample.Old.validate Shapes.old_ring Sample.Num 0%nat)
    (Sample.New.validate Shapes.ring Sample.Num 0%nat).
Proof.
  apply (corresponding_hierarchies_agree Sample.candidate_name
           Shapes.old_ring Shapes.ring Sample.Num).
  apply Hierarchy.corresponds_intro.
  - repeat (apply Forall2_cons || apply Forall2_nil);
      (apply Hierarchy.corresponds_intro;
       [apply Forall2_nil | intros w; split; reflexivity]).
  - intros w. split; reflexivity.
Defined.

(** [Ring] and [Tower] carry the laws of [Group], of [Eq] and one that
    holds, in this order. *)
Lemma hierarchies_with_the_same_laws_agree_witness :
  MaybeError.isError
    (ret_val (Sample.New.validate Shapes.ring Sample.Num 0%nat))
  = MaybeError.isError
      (ret_val (Sample.New.validate Shapes.tower Sample.Num 0%nat))
  /\ Either.isLeft
       (ret_val (Sample.Old.validate Shapes.old_ring Sample.Num 0%nat))
     = Either.isLeft
         (ret_val (Sample.Old.validate Shapes.old_tower Sample.Num 0%nat)).
Proof.
  split.
  - apply (proj1 (hierarchies_with_the_same_laws_agree Sample.candidate_name
                    Shapes.ring Shapes.tower Shapes.old_ring Shapes.old_tower
                    Sample.Num 0%nat)).
    reflexivity.
  - apply (proj2 (hierarchies_with_the_same_laws_agree Sample.candidate_name
                    Shapes.ring Shapes.tower Shapes.old_ring Shapes.old_tower
                    Sample.Num 0%nat)).
    reflexivity.
Defined.
